(** * pdf-signer-spa-interactive: placement store, drag controller, PDF export

    A shallow embedding of
    - [src/store/appStore.ts]          (module [AppStore]),
    - [src/components/PdfViewer.tsx]   (module [PdfViewer]: the drag-to-move
                                        session of a placed signature),
    - the two copies of [exportSignedPdf] (module [PdfExport]),
    followed by the properties of the placement / coordinate model.

    JavaScript numbers are modelled as rationals ([Q]): every comparison and
    arithmetic operation of the source is exact there.  [NaN], the infinities
    and binary64 rounding are outside this model; module [Binary64] replays
    the coordinate conversion in IEEE-754 binary64 for the numeric example.
    Strings are sequences of 8-bit code units. *)

From Stdlib Require Import QArith Qminmax Qabs Lqa ZArith Lia Floats.
From Stdlib Require Import Ascii String.
From stdpp Require Import gmap strings list.

Set Default Proof Using "Type".
Set Warnings "-inexact-float".

(* ===================================================================== *)
(** ** JavaScript numbers                                                 *)
(* ===================================================================== *)

Module JsNum.

Local Open Scope Q_scope.

Definition number := Q.

(** [a < b], [a <= b], [a > b] as the booleans JavaScript computes. *)
Definition ltb (a b : number) : bool := negb (Qle_bool b a).
Definition leb (a b : number) : bool := Qle_bool a b.
Definition gtb (a b : number) : bool := ltb b a.

(** [Number.isInteger]. *)
Definition Number_isInteger (a : number) : bool :=
  Pos.eqb (Qden (Qred a)) 1.

Definition Math_abs : number -> number := Qabs.
Definition Math_max : number -> number -> number := Qmax.
Definition Math_min : number -> number -> number := Qmin.

(** [arr[i]] for a numeric index: a non-negative integer selects a slot,
    anything else reads [undefined]. *)
Definition arrayIndex (i : number) : option nat :=
  if Number_isInteger i && leb 0 i then Some (Z.to_nat (Qnum (Qred i)))
  else None.

End JsNum.

(* ===================================================================== *)
(** ** src/store/appStore.ts                                              *)
(* ===================================================================== *)

Module AppStore.
Import JsNum.
Local Open Scope Q_scope.
Local Open Scope string_scope.

Record Size := { width : number; height : number }.

(** [PercentRect]: "All values as percentages (0-100)". *)
Record PercentRect := { x : number; y : number; w : number; h : number }.

Record Placement :=
  { id : string; pageIndex : number; rect : PercentRect;
    imageDataUrl : string }.

(** A browser [File]: its name and its (immutable) contents. *)
Record File := { name : string; bytes : list Byte.byte }.

(** An [HTMLCanvasElement], as far as the store is concerned. *)
Record HTMLCanvasElement := { canvas_width : number; canvas_height : number }.

(** The state [S] of the zustand store (its data fields). *)
Record S :=
  { pdfFile : option File;
    pages : list HTMLCanvasElement;
    pageSizes : list Size;
    placements : list Placement;
    currentSignature : option string;
    hasDoc : bool }.

Definition initial : S :=
  {| pdfFile := None; pages := []; pageSizes := []; placements := [];
     currentSignature := None; hasDoc := false |}.

(** *** [isValidDataURL]
    [/^data:image\/(png|jpeg|jpg|webp);base64,[A-Za-z0-9+/=]+$/]. *)

Definition isBase64Char (c : ascii) : bool :=
  let n := nat_of_ascii c in
  ((65 <=? n) && (n <=? 90))%nat || ((97 <=? n) && (n <=? 122))%nat
  || ((48 <=? n) && (n <=? 57))%nat
  || (n =? 43)%nat || (n =? 47)%nat || (n =? 61)%nat.

Fixpoint stripPrefix (pre s : string) : option string :=
  match pre with
  | EmptyString => Some s
  | String a pre' =>
      match s with
      | String b s' => if Ascii.eqb a b then stripPrefix pre' s' else None
      | EmptyString => None
      end
  end.

Fixpoint allChars (f : ascii -> bool) (s : string) : bool :=
  match s with
  | EmptyString => true
  | String c s' => f c && allChars f s'
  end.

(** The tail [;base64,[A-Za-z0-9+/=]+$] after one alternative [fmt]. *)
Definition matchesAfter (fmt rest : string) : bool :=
  match stripPrefix (fmt ++ ";base64,") rest with
  | Some (String c body) => isBase64Char c && allChars isBase64Char body
  | _ => false
  end.

Definition isValidDataURL (dataUrl : string) : bool :=
  match stripPrefix "data:image/" dataUrl with
  | Some rest =>
      existsb (fun fmt => matchesAfter fmt rest) ["png"; "jpeg"; "jpg"; "webp"]
  | None => false
  end.

(** *** Actions.  [set(partial)] merges [partial] into the state;
    [set(s => s)] leaves the state as it is. *)

Definition loadFile (f : File) (s : S) : S :=
  {| pdfFile := Some f; hasDoc := true; pages := []; pageSizes := [];
     placements := []; currentSignature := currentSignature s |}.

Definition clearAll (s : S) : S :=
  {| pdfFile := None; hasDoc := false; pages := []; pageSizes := [];
     placements := []; currentSignature := None |}.

Definition setPages (canvases : list HTMLCanvasElement) (sizes : list Size)
    (s : S) : S :=
  {| pdfFile := pdfFile s; hasDoc := hasDoc s; pages := canvases;
     pageSizes := sizes; placements := placements s;
     currentSignature := currentSignature s |}.

Definition setPageSizes (sizes : list Size) (s : S) : S :=
  {| pdfFile := pdfFile s; hasDoc := hasDoc s; pages := pages s;
     pageSizes := sizes; placements := placements s;
     currentSignature := currentSignature s |}.

(** [if (d && !isValidDataURL(d)) return]: [null] and the empty string are
    falsy and are stored as they are. *)
Definition setCurrentSignature (d : option string) (s : S) : S :=
  let truthy := match d with Some (String _ _) => true | _ => false end in
  let valid := match d with Some u => isValidDataURL u | None => false end in
  if truthy && negb valid then s
  else {| pdfFile := pdfFile s; hasDoc := hasDoc s; pages := pages s;
          pageSizes := pageSizes s; placements := placements s;
          currentSignature := d |}.

Definition withPlacements (ps : list Placement) (s : S) : S :=
  {| pdfFile := pdfFile s; hasDoc := hasDoc s; pages := pages s;
     pageSizes := pageSizes s; placements := ps;
     currentSignature := currentSignature s |}.

(** The three guards of [addPlacement], in source order. *)
Definition invalidPageIndex (pageIndex : number) : bool :=
  ltb pageIndex 0 || negb (Number_isInteger pageIndex).

Definition invalidRect (rect : PercentRect) : bool :=
  leb (w rect) 0 || leb (h rect) 0 || ltb (x rect) 0 || ltb (y rect) 0
  || gtb (x rect) 100 || gtb (y rect) 100
  || gtb (w rect) 100 || gtb (h rect) 100.

(** [addPlacement]; [uuid] is the value [crypto.randomUUID()] returns to
    this call. *)
Definition addPlacement (uuid : string) (pageIndex : number)
    (rect : PercentRect) (imageDataUrl : string) (s : S) : S :=
  if negb (isValidDataURL imageDataUrl) then s
  else if invalidPageIndex pageIndex then s
  else if invalidRect rect then s
  else
    let newPlacement :=
      {| id := uuid; pageIndex := pageIndex; rect := rect;
         imageDataUrl := imageDataUrl |} in
    withPlacements (placements s ++ [newPlacement]) s.

Definition updatePlacement (id0 : string) (rect0 : PercentRect) (s : S) : S :=
  withPlacements
    (map (fun p => if String.eqb (id p) id0
                   then {| id := id p; pageIndex := pageIndex p;
                           rect := rect0; imageDataUrl := imageDataUrl p |}
                   else p)
         (placements s)) s.

Definition removePlacement (id0 : string) (s : S) : S :=
  withPlacements
    (List.filter (fun p => negb (String.eqb (id p) id0)) (placements s)) s.

Definition clearAllPlacements (s : S) : S :=
  {| pdfFile := pdfFile s; hasDoc := hasDoc s; pages := pages s;
     pageSizes := pageSizes s; placements := [];
     currentSignature := None |}.

End AppStore.

(* ===================================================================== *)
(** ** src/components/PdfViewer.tsx: drag-to-move of a placed signature   *)
(* ===================================================================== *)

(** The file holds two copies of the component.  [PdfViewer] follows the
    first one (percentage rects, mouse and touch); [PdfViewerPixels] holds
    the [mousemove] / [mouseup] handlers of the older one further down
    (pixel rects, mouse only). *)

Module PdfViewer.
Import JsNum AppStore.
Local Open Scope Q_scope.

(** What [getBoundingClientRect()] returns. *)
Record DOMRect :=
  { dom_left : number; dom_top : number;
    dom_width : number; dom_height : number }.

(** The variables one [startDrag] call and its closures share: the two flags
    of the overlay ([isDragging], [dragStarted]) and the values captured at
    the start of the gesture. *)
Record DragSession :=
  { isDragging : bool;
    dragStarted : bool;
    startX : number;
    startY : number;
    startRect : PercentRect;
    target : string (* p.id *) }.

(** One call [updatePlacement(id, rect)] issued by a handler. *)
Definition UpdateCall : Type := string * PercentRect.

(** "Check if click is near the handle area to avoid conflict". *)
Definition inHandleArea (imgRect : DOMRect) (innerWidth : number)
    (startX0 startY0 : number) : bool :=
  let clickX := startX0 - dom_left imgRect in
  let clickY := startY0 - dom_top imgRect in
  let isMobile := leb innerWidth 768 in
  let handleAreaSize := if isMobile then 40 else 30 in
  let handleAreaX := dom_width imgRect - handleAreaSize in
  let handleAreaY := dom_height imgRect - handleAreaSize in
  gtb clickX handleAreaX && gtb clickY handleAreaY.

(** [startDrag(startX, startY, checkHandleArea)] on the overlay of [p];
    [None] is its [return false].  ([selectSignature()] only toggles CSS
    classes.) *)
Definition startDrag (p : Placement) (imgRect : DOMRect) (innerWidth : number)
    (startX0 startY0 : number) (checkHandleArea : bool) : option DragSession :=
  if checkHandleArea && inHandleArea imgRect innerWidth startX0 startY0
  then None
  else Some {| isDragging := true; dragStarted := false;
               startX := startX0; startY := startY0;
               startRect := rect p; target := id p |}.

Definition dragThreshold : number := 5.

(** [handleMove(moveX, moveY)]; [canvasRect] is the canvas bounding box read
    during this call.  Returns the session and the [updatePlacement] calls
    made (none or one).  (For a canvas box of width or height 0 the rect of
    the call is not the one JavaScript computes, which is built from an
    infinity or [NaN]; whether a call is made does not depend on the box.) *)
Definition handleMove (canvasRect : DOMRect) (moveX moveY : number)
    (d : DragSession) : DragSession * list UpdateCall :=
  if negb (isDragging d) then (d, [])
  else if negb (dragStarted d)
          && (ltb (Math_abs (moveX - startX d)) dragThreshold
              && ltb (Math_abs (moveY - startY d)) dragThreshold)
  then (d, [])
  else
    let d' := {| isDragging := isDragging d; dragStarted := true;
                 startX := startX d; startY := startY d;
                 startRect := startRect d; target := target d |} in
    let dx := moveX - startX d in
    let dy := moveY - startY d in
    let percentDx := (dx / dom_width canvasRect) * 100 in
    let percentDy := (dy / dom_height canvasRect) * 100 in
    let newX := Math_max 0 (Math_min (x (startRect d) + percentDx)
                                     (100 - w (startRect d))) in
    let newY := Math_max 0 (Math_min (y (startRect d) + percentDy)
                                     (100 - h (startRect d))) in
    (d', [(target d, {| x := newX; y := newY;
                        w := w (startRect d); h := h (startRect d) |})]).

Definition handleEnd (d : DragSession) : DragSession :=
  {| isDragging := false; dragStarted := false;
     startX := startX d; startY := startY d;
     startRect := startRect d; target := target d |}.

(** The document-level events a session listens to: [mousemove] /
    [touchmove] (both forward the client coordinates to [handleMove]) and
    [mouseup] / [touchend] (both call [handleEnd]). *)
Inductive DragEvent :=
| PointerMove (canvasRect : DOMRect) (clientX clientY : number)
| PointerUp.

Definition dispatch (e : DragEvent) (d : DragSession)
    : DragSession * list UpdateCall :=
  match e with
  | PointerMove canvasRect cx cy => handleMove canvasRect cx cy d
  | PointerUp => (handleEnd d, [])
  end.

(** The [updatePlacement] calls of a whole gesture, in order. *)
Fixpoint gesture (es : list DragEvent) (d : DragSession) : list UpdateCall :=
  match es with
  | [] => []
  | e :: es' =>
      let '(d', calls) := dispatch e d in
      calls ++ gesture es' d'
  end.

(** A mouse gesture on the overlay: [mousedown] (left button, with the
    handle-area check) followed by document events. *)
Definition mouseGesture (p : Placement) (imgRect : DOMRect)
    (innerWidth : number) (downX downY : number) (es : list DragEvent)
    : list UpdateCall :=
  match startDrag p imgRect innerWidth downX downY true with
  | Some d => gesture es d
  | None => []
  end.

(** The single-finger branch of the overlay's own [touchmove] listener: a
    finger that went down on the overlay opens a drag session only after
    the move that takes it more than 15 px from the start. *)
Definition touchStartsDrag (imgRect : DOMRect) (innerWidth : number)
    (initialTouchX initialTouchY : number) (clientX clientY : number) : bool :=
  let deltaX := Math_abs (clientX - initialTouchX) in
  let deltaY := Math_abs (clientY - initialTouchY) in
  negb (inHandleArea imgRect innerWidth initialTouchX initialTouchY)
  && (gtb deltaX 15 || gtb deltaY 15).

End PdfViewer.

Module PdfViewerPixels.
Import JsNum AppStore PdfViewer.
Local Open Scope Q_scope.

Definition dragThreshold : number := 3.

(** [handleMouseMove(moveEvent)] of the [mousedown] listener; [wrapRect] is
    the bounding box of the page wrapper read during this call.  The session
    is opened by the listener itself, under the same handle-area test with a
    20 px corner. *)
Definition handleMouseMove (wrapRect : DOMRect) (clientX clientY : number)
    (d : DragSession) : DragSession * list UpdateCall :=
  if negb (isDragging d) then (d, [])
  else if negb (dragStarted d)
          && (ltb (Math_abs (clientX - startX d)) dragThreshold
              && ltb (Math_abs (clientY - startY d)) dragThreshold)
  then (d, [])
  else
    let d' := {| isDragging := isDragging d; dragStarted := true;
                 startX := startX d; startY := startY d;
                 startRect := startRect d; target := target d |} in
    let dx := clientX - startX d in
    let dy := clientY - startY d in
    let newX := Math_max 0 (Math_min (x (startRect d) + dx)
                                     (dom_width wrapRect - w (startRect d))) in
    let newY := Math_max 0 (Math_min (y (startRect d) + dy)
                                     (dom_height wrapRect - h (startRect d))) in
    (d', [(target d, {| x := newX; y := newY;
                        w := w (startRect d); h := h (startRect d) |})]).

Definition handleMouseUp (d : DragSession) : DragSession :=
  {| isDragging := false; dragStarted := false;
     startX := startX d; startY := startY d;
     startRect := startRect d; target := target d |}.

End PdfViewerPixels.

(* ===================================================================== *)
(** ** exportSignedPdf                                                    *)
(* ===================================================================== *)

(** The repository holds two copies of [exportSignedPdf].  Their loop over
    the placements is the same text except for the coordinate conversion;
    the later copy also wraps the whole body in [try ... catch].
    - [PdfExport.Percent] : the copy whose file name is not recorded
                            ("Convert from percentage coordinates to PDF
                            coordinates"), matching the store's [PercentRect];
    - [PdfExport.Canvas]  : [src/modules/write/export.ts] ("canvas
                            coordinates (scaled 1.5x, top-left origin)"). *)

Module PdfExport.
Import JsNum AppStore.
Local Open Scope Q_scope.
Local Open Scope string_scope.

(** *** The pdf-lib document, as far as the export touches it *)

Inductive ImageFormat := PNG | JPEG.

(** A [PDFImage] handle: its slot among the images embedded into the
    document, the encoding it was embedded as, and the payload. *)
Record PDFImage :=
  { image_ref : nat; image_format : ImageFormat; image_source : string }.

(** The options object of [page.drawImage]. *)
Record DrawOptions :=
  { opt_x : number; opt_y : number; opt_width : number; opt_height : number }.

Record DrawOp := { op_image : PDFImage; op_at : DrawOptions }.

Record PDFPage := { page_size : Size; page_content : list DrawOp }.

Record PDFDocument :=
  { doc_source : list Byte.byte;
    doc_pages : list PDFPage;
    doc_images : list PDFImage }.

(** What a step may throw. *)
Inductive Thrown :=
| LoadError          (* PDFDocument.load rejects *)
| TypeError          (* page is undefined: page.getSize() *)
| EmbedError         (* embedJpg rejects, after embedPng did *)
| SaveError          (* pdfDoc.save rejects *)
| ExportFailed.      (* new Error('Failed to export PDF. ...') *)

Inductive Result (A : Type) :=
| Return (a : A)
| Throw (e : Thrown).
Arguments Return {A} a.
Arguments Throw {A} e.

Definition bind {A B} (r : Result A) (k : A -> Result B) : Result B :=
  match r with
  | Return a => k a
  | Throw e => Throw e
  end.

Notation "'await' x <- r ; k" := (bind r (fun x => k))
  (at level 10, x pattern, r at level 100, k at level 200).

(** [try { a } catch { b }]. *)
Definition tryCatch {A} (a : Result A) (b : Result A) : Result A :=
  match a with
  | Return v => Return v
  | Throw _ => b
  end.

(** [for (const p of xs) { st = body(st, p) }], leaving at the first throw. *)
Fixpoint forOf {A St} (body : St -> A -> Result St) (xs : list A) (st : St)
    : Result St :=
  match xs with
  | [] => Return st
  | a :: xs' => await st' <- body st a; forOf body xs' st'
  end.

(** *** The browser around the export: the downloads it has started and the
    number of object URLs it has handed out. *)
Record Download := { download_name : string; download_body : list Byte.byte }.

Record Browser := { downloads : list Download; objectUrls : nat }.

(** *** File-name derivation *)

Definition underscore : ascii := "_"%char.

(** The class of the first [replace]: the control characters (code units
    below 32) and the nine characters  <  >  :  double quote  /  backslash
    |  ?  and the asterisk. *)
Definition isInvalidFilenameChar (c : ascii) : bool :=
  let n := nat_of_ascii c in
  (n <? 32)%nat
  || existsb (Nat.eqb n) [60; 62; 58; 34; 47; 92; 124; 63; 42]%nat.

(** [\s] on code units below 256. *)
Definition isSpace (c : ascii) : bool :=
  existsb (Nat.eqb (nat_of_ascii c)) [9; 10; 11; 12; 13; 32; 160]%nat.

Fixpoint mapChars (f : ascii -> ascii) (s : string) : string :=
  match s with
  | EmptyString => EmptyString
  | String c s' => String (f c) (mapChars f s')
  end.

Fixpoint dropWhileChar (f : ascii -> bool) (s : string) : string :=
  match s with
  | String c s' => if f c then dropWhileChar f s' else s
  | EmptyString => EmptyString
  end.

(** [.replace(/\s+/g, '_')]: every maximal run of white space becomes one
    underscore.  [inRun] tells that the previous character belonged to the
    run being replaced. *)
Fixpoint replaceSpaceRuns (inRun : bool) (s : string) : string :=
  match s with
  | EmptyString => EmptyString
  | String c s' =>
      if isSpace c
      then if inRun then replaceSpaceRuns true s'
           else String underscore (replaceSpaceRuns true s')
      else String c (replaceSpaceRuns false s')
  end.

(** [.replace(/_{2,}/g, '_')]. *)
Fixpoint collapseUnderscores (inRun : bool) (s : string) : string :=
  match s with
  | EmptyString => EmptyString
  | String c s' =>
      if Ascii.eqb c underscore
      then if inRun then collapseUnderscores true s'
           else String underscore (collapseUnderscores true s')
      else String c (collapseUnderscores false s')
  end.

Definition reverse (s : string) : string :=
  string_of_list_ascii (rev (list_ascii_of_string s)).

(** [.replace(/^_+|_+$/g, '')]. *)
Definition trimUnderscores (s : string) : string :=
  let isU := fun c => Ascii.eqb c underscore in
  reverse (dropWhileChar isU (reverse (dropWhileChar isU s))).

Definition orElse (s fallback : string) : string :=
  match s with EmptyString => fallback | _ => s end.

Definition sanitizeFilename (filename : string) : string :=
  orElse
    (String.substring 0 100
       (trimUnderscores
          (collapseUnderscores false
             (replaceSpaceRuns false
                (mapChars (fun c => if isInvalidFilenameChar c
                                    then underscore else c) filename)))))
    "document".

Definition lower (c : ascii) : ascii :=
  let n := nat_of_ascii c in
  if ((65 <=? n) && (n <=? 90))%nat then ascii_of_nat (n + 32) else c.

(** [.replace(/\.pdf$/i, '')]. *)
Definition stripPdfSuffix (s : string) : string :=
  match stripPrefix "fdp." (mapChars lower (reverse s)) with
  | Some _ => String.substring 0 (String.length s - 4) s
  | None => s
  end.

Definition downloadName (fileName : string) : string :=
  let originalName := orElse (stripPdfSuffix fileName) "document" in
  sanitizeFilename originalName ++ "-signed.pdf".

(** [blob], [createObjectURL], [a.click()], [revokeObjectURL]: one download
    of [out] under the derived name. *)
Definition triggerDownload (fileName : string) (out : list Byte.byte)
    (b : Browser) : Browser :=
  {| downloads := downloads b
                  ++ [{| download_name := downloadName fileName;
                         download_body := out |}];
     objectUrls := Nat.succ (objectUrls b) |}.

(** pdf-lib is not part of the repository; the export depends on it through
    four facts: whether the bytes parse (and into which page sizes), whether
    a payload decodes as PNG, as JPEG, and what [save] produces. *)
Class PdfLib :=
  { parsePages : list Byte.byte -> option (list Size);
    decodesAsPng : string -> bool;
    decodesAsJpg : string -> bool;
    serialize : PDFDocument -> option (list Byte.byte) }.

Section WithPdfLib.
Context {lib : PdfLib}.

(** [PDFDocument.load(bytes)]. *)
Definition load (source : list Byte.byte) : Result PDFDocument :=
  match parsePages source with
  | Some sizes =>
      Return {| doc_source := source;
                doc_pages := map (fun sz => {| page_size := sz;
                                               page_content := [] |}) sizes;
                doc_images := [] |}
  | None => Throw LoadError
  end.

Definition embed (fmt : ImageFormat) (doc : PDFDocument) (payload : string)
    : PDFImage * PDFDocument :=
  let img := {| image_ref := length (doc_images doc);
                image_format := fmt; image_source := payload |} in
  (img, {| doc_source := doc_source doc; doc_pages := doc_pages doc;
           doc_images := doc_images doc ++ [img] |}).

(** [pdfDoc.embedPng(dataUrl)], [pdfDoc.embedJpg(dataUrl)]. *)
Definition embedPng (doc : PDFDocument) (payload : string)
    : Result (PDFImage * PDFDocument) :=
  if decodesAsPng payload then Return (embed PNG doc payload)
  else Throw EmbedError.

Definition embedJpg (doc : PDFDocument) (payload : string)
    : Result (PDFImage * PDFDocument) :=
  if decodesAsJpg payload then Return (embed JPEG doc payload)
  else Throw EmbedError.

(** [pdfDoc.getPages()[i]]. *)
Definition getPage (doc : PDFDocument) (i : number) : option (nat * PDFPage) :=
  match arrayIndex i with
  | Some k => match doc_pages doc !! k with
              | Some page => Some (k, page)
              | None => None
              end
  | None => None
  end.

(** [page.drawImage(img, options)] on the page in slot [k]. *)
Definition drawImage (doc : PDFDocument) (k : nat) (img : PDFImage)
    (options : DrawOptions) : PDFDocument :=
  {| doc_source := doc_source doc;
     doc_pages :=
       alter (fun page =>
                {| page_size := page_size page;
                   page_content := page_content page
                                   ++ [{| op_image := img; op_at := options |}] |})
             k (doc_pages doc);
     doc_images := doc_images doc |}.

(** [pdfDoc.save()]. *)
Definition save (doc : PDFDocument) : Result (list Byte.byte) :=
  match serialize doc with
  | Some out => Return out
  | None => Throw SaveError
  end.

(** *** The loop body shared by the two copies.  [toPdf] is the coordinate
    conversion; the state is the document and the [cache] map. *)
Definition LoopState : Type := PDFDocument * gmap string PDFImage.

Definition cachedImage (st : LoopState) (payload : string)
    : Result (PDFImage * LoopState) :=
  let '(doc, cache) := st in
  match cache !! payload with
  | Some img => Return (img, st)
  | None =>
      await (img, doc') <- tryCatch (embedPng doc payload)
                                     (embedJpg doc payload);
      Return (img, (doc', <[payload := img]> cache))
  end.

Definition placeOne (toPdf : Size -> PercentRect -> DrawOptions)
    (st : LoopState) (p : Placement) : Result LoopState :=
  match getPage (fst st) (pageIndex p) with
  | None => Throw TypeError
  | Some (k, page) =>
      await (img, (doc', cache')) <- cachedImage st (imageDataUrl p);
      Return (drawImage doc' k img (toPdf (page_size page) (rect p)), cache')
  end.

(** From [file.arrayBuffer()] to [pdfDoc.save()]. *)
Definition signedBytes (toPdf : Size -> PercentRect -> DrawOptions)
    (file : File) (ps : list Placement) : Result (list Byte.byte) :=
  await pdfDoc <- load (bytes file);
  await (pdfDoc', _) <- forOf (placeOne toPdf) ps (pdfDoc, ∅);
  save pdfDoc'.

End WithPdfLib.

(** *** The copy with percentage coordinates *)
Module Percent.

Definition toPdf (size : Size) (r : PercentRect) : DrawOptions :=
  let pageWidth := width size in
  let pageHeight := height size in
  let pdfX := (x r / 100) * pageWidth in
  let pdfY := pageHeight - ((y r + h r) / 100) * pageHeight in
  let pdfW := (w r / 100) * pageWidth in
  let pdfH := (h r / 100) * pageHeight in
  {| opt_x := pdfX; opt_y := pdfY; opt_width := pdfW; opt_height := pdfH |}.

(** The [try] block ends with the download; [catch] logs the error and
    throws a fresh one. *)
Definition exportSignedPdf {lib : PdfLib} (file : File) (ps : list Placement)
    (b : Browser) : Result unit * Browser :=
  match signedBytes toPdf file ps with
  | Return out => (Return tt, triggerDownload (name file) out b)
  | Throw _ => (Throw ExportFailed, b)
  end.

End Percent.

(** *** The copy with canvas coordinates *)
Module Canvas.

Definition scale : number := 1.5.

Definition toPdf (size : Size) (r : PercentRect) : DrawOptions :=
  let pageHeight := height size in
  let pdfX := x r / scale in
  let pdfY := pageHeight - (y r + h r) / scale in
  let pdfW := w r / scale in
  let pdfH := h r / scale in
  {| opt_x := pdfX; opt_y := pdfY; opt_width := pdfW; opt_height := pdfH |}.

(** No [try] here: what a step throws leaves the function as it is. *)
Definition exportSignedPdf {lib : PdfLib} (file : File) (ps : list Placement)
    (b : Browser) : Result unit * Browser :=
  match signedBytes toPdf file ps with
  | Return out => (Return tt, triggerDownload (name file) out b)
  | Throw e => (Throw e, b)
  end.

End Canvas.

(** [exportAll] of the store: the guards, then the export; its own [catch]
    swallows the error after reporting it.  The result lists the dialogs
    shown by [alert]. *)
Definition exportAll {lib : PdfLib} (s : S) (b : Browser)
    : list string * Browser :=
  match pdfFile s with
  | None => (["Please load a PDF file first"], b)
  | Some file =>
      match placements s with
      | [] => (["Please add at least one signature to the PDF"], b)
      | ps =>
          match Percent.exportSignedPdf file ps b with
          | (Return _, b') => ([], b')
          | (Throw _, b') => (["Failed to export PDF. Please try again."], b')
          end
      end
  end.

End PdfExport.

(* ===================================================================== *)
(** ** The coordinate conversion in IEEE-754 binary64                     *)
(* ===================================================================== *)

(** The four expressions of [PdfExport.Percent.toPdf], evaluated the way a
    JavaScript engine does. *)
Module Binary64.
Local Open Scope float_scope.

Definition pdfX (rx pageWidth : float) : float := (rx / 100) * pageWidth.
Definition pdfY (ry rh pageHeight : float) : float :=
  pageHeight - ((ry + rh) / 100) * pageHeight.
Definition pdfW (rw pageWidth : float) : float := (rw / 100) * pageWidth.
Definition pdfH (rh pageHeight : float) : float := (rh / 100) * pageHeight.

(** [|a - b| < 2^-30] (about 9.3e-10). *)
Definition close (a b : float) : bool := PrimFloat.ltb (abs (a - b)) 0x1p-30.

End Binary64.

(* ===================================================================== *)
(** ** Vocabulary of the properties                                       *)
(* ===================================================================== *)

Module Vocabulary.
Import JsNum AppStore PdfViewer PdfExport.
Local Open Scope Q_scope.
Local Open Scope string_scope.
Local Open Scope list_scope.

(** The NormalizedRect invariant of the specification, for comparison with
    [invalidRect]. *)
Definition normalizedRect (r : PercentRect) : Prop :=
  0 <= x r /\ 0 <= y r /\ x r + w r <= 100 /\ y r + h r <= 100
  /\ 0 < w r /\ 0 < h r.

(** The rect guard of [addPlacement], as a proposition. *)
Definition fieldOutOfRange (r : PercentRect) : Prop :=
  w r <= 0 \/ h r <= 0 \/ x r < 0 \/ y r < 0
  \/ 100 < x r \/ 100 < y r \/ 100 < w r \/ 100 < h r.

(** The page-index guard of [addPlacement], as a proposition. *)
Definition malformedPageIndex (i : number) : Prop :=
  i < 0 \/ ~ (exists z : Z, i == inject_Z z).

(** Squared Euclidean displacement of a sample from the gesture's start. *)
Definition displacement2 (d : DragSession) (cx cy : number) : number :=
  (cx - startX d) * (cx - startX d) + (cy - startY d) * (cy - startY d).


(** Replaying the calls of a gesture on the store. *)
Definition applyCalls (calls : list UpdateCall) (s : S) : S :=
  fold_left (fun s c => updatePlacement (fst c) (snd c) s) calls s.

(** How many images with payload [u] the document holds. *)
Definition embedsOf (u : string) (doc : PDFDocument) : nat :=
  length (List.filter (fun img => String.eqb (image_source img) u)
                      (doc_images doc)).

(** The draw operations on the page in slot [k], oldest first. *)
Definition contentOf (k : nat) (doc : PDFDocument) : list DrawOp :=
  match doc_pages doc !! k with
  | Some page => page_content page
  | None => []
  end.

(** All draw operations of the document. *)
Definition drawsOf (doc : PDFDocument) : nat :=
  length (concat (map page_content (doc_pages doc))).

(** Placement [p] addresses the page in slot [k]. *)
Definition targets (k : nat) (p : Placement) : bool :=
  match arrayIndex (pageIndex p) with
  | Some j => Nat.eqb j k
  | None => false
  end.

(** [op] is the draw of placement [p] on a page of size [sz]: at the
    converted rect, with the handle the cache holds for the payload. *)
Definition drawnFor (toPdf : Size -> PercentRect -> DrawOptions)
    (cache : gmap string PDFImage) (sz : Size) (op : DrawOp) (p : Placement)
    : Prop :=
  op_at op = toPdf sz (rect p)
  /\ cache !! imageDataUrl p = Some (op_image op).

(** The cache and the document agree: a cached handle carries the payload it
    is filed under, is one of the images of the document and decoded as PNG
    or JPEG; and a payload is a key of the cache exactly when the document
    holds an image for it, and then holds one. *)
Definition cacheAgrees {lib : PdfLib} (st : LoopState) : Prop :=
  (forall u img, snd st !! u = Some img ->
     image_source img = u /\ In img (doc_images (fst st))
     /\ (decodesAsPng u = true \/ decodesAsJpg u = true))
  /\ (forall u, embedsOf u (fst st)
                = match snd st !! u with Some _ => 1%nat | None => 0%nat end).

(** [doc] is the document the loop of the export leaves, for this file and
    these placements. *)
Definition builds {lib : PdfLib} (toPdf : Size -> PercentRect -> DrawOptions)
    (file : File) (ps : list Placement) (doc : PDFDocument) : Prop :=
  exists doc0 cache,
    load (bytes file) = Return doc0
    /\ forOf (placeOne toPdf) ps (doc0, ∅) = Return (doc, cache).

(** The two copies of [exportSignedPdf] in the repository. *)
Inductive Copy := PercentCopy | CanvasCopy.

Definition toPdfOf (c : Copy) : Size -> PercentRect -> DrawOptions :=
  match c with
  | PercentCopy => Percent.toPdf
  | CanvasCopy => Canvas.toPdf
  end.

Definition exportSignedPdfOf {lib : PdfLib} (c : Copy)
    : File -> list Placement -> Browser -> Result unit * Browser :=
  match c with
  | PercentCopy => Percent.exportSignedPdf
  | CanvasCopy => Canvas.exportSignedPdf
  end.

(** A placement without its [id]. *)
Definition sansId (p : Placement) : number * PercentRect * string :=
  (pageIndex p, rect p, imageDataUrl p).

(** The bytes an export run handed to the browser, if it did. *)
Definition produced (run : Result unit * Browser) : option (list Byte.byte) :=
  match run with
  | (Return _, b') => download_body <$> last (downloads b')
  | (Throw _, _) => None
  end.

End Vocabulary.

(* ===================================================================== *)
(** ** Sample data                                                        *)
(* ===================================================================== *)

Module Samples.
Import JsNum AppStore PdfViewer PdfExport Vocabulary.
Local Open Scope Q_scope.
Local Open Scope string_scope.
Local Open Scope list_scope.

Definition pngDot : string := "data:image/png;base64,iVBORw0KGgo=".

Definition wideRect : PercentRect := {| x := 60; y := 10; w := 60; h := 10 |}.

(** A session with a one-page document loaded and rendered. *)
Definition onePage : S :=
  {| pdfFile := Some {| name := "a.pdf"; bytes := [] |};
     pages := [{| canvas_width := 918; canvas_height := 1188 |}];
     pageSizes := [{| width := 918; height := 1188 |}];
     placements := []; currentSignature := Some pngDot; hasDoc := true |}.

Definition smallRect : PercentRect := {| x := 10; y := 20; w := 15; h := 5 |}.

Definition badRect : PercentRect := {| x := -5; y := 120; w := 0; h := -1 |}.

Definition oneSigned : S :=
  addPlacement "u1" 0 smallRect pngDot onePage.

(** A 612 x 792 page shown at 1.5x, a signature overlay on it, and a press
    in the middle of the overlay. *)
Definition canvasBox : DOMRect :=
  {| dom_left := 0; dom_top := 0; dom_width := 918; dom_height := 1188 |}.

Definition overlayBox : DOMRect :=
  {| dom_left := 100; dom_top := 200; dom_width := 220; dom_height := 60 |}.

Definition signature1 : Placement :=
  {| id := "u1"; pageIndex := 0;
     rect := {| x := 10; y := 20; w := 24; h := 5 |};
     imageDataUrl := pngDot |}.

Definition pressed : DragSession :=
  {| isDragging := true; dragStarted := false; startX := 150; startY := 220;
     startRect := rect signature1; target := "u1" |}.

(** A toy pdf-lib for the examples: a source of [n > 0] bytes parses into
    [n] pages of US Letter size; payloads decode by their media type;
    documents with at most three draws serialize, by appending one [*] per
    draw to the source. *)
Definition letter : Size := {| width := 612; height := 792 |}.

Definition demoLib : PdfLib :=
  {| parsePages source :=
       match source with
       | [] => None
       | _ => Some (map (fun _ => letter) source)
       end;
     decodesAsPng u :=
       match stripPrefix "data:image/png;" u with
       | Some _ => true
       | None => false
       end;
     decodesAsJpg u :=
       match stripPrefix "data:image/jpeg;" u with
       | Some _ => true
       | None => false
       end;
     serialize doc :=
       if (drawsOf doc <=? 3)%nat
       then Some (doc_source doc ++ repeat Byte.x2a (drawsOf doc))
       else None |}.

Definition contract : File :=
  {| name := "contract v2.pdf"; bytes := [Byte.x25; Byte.x50] |}.

Definition contractCopy : File :=
  {| name := "copy.pdf"; bytes := [Byte.x25; Byte.x50] |}.

Definition exampleRect : PercentRect := {| x := 10; y := 20; w := 15; h := 5 |}.

Definition initials1 : Placement :=
  {| id := "u1"; pageIndex := 0; rect := exampleRect; imageDataUrl := pngDot |}.

Definition initials2 : Placement :=
  {| id := "u2"; pageIndex := 1;
     rect := {| x := 50; y := 50; w := 15; h := 5 |};
     imageDataUrl := pngDot |}.

Definition webpUrl : string := "data:image/webp;base64,UklGRg==".

Definition idle : Browser := {| downloads := []; objectUrls := 0 |}.

Definition busy : Browser :=
  {| downloads := [{| download_name := "old.pdf"; download_body := [] |}];
     objectUrls := 7 |}.

Definition stamp : Placement :=
  {| id := "u3"; pageIndex := 0;
     rect := {| x := 70; y := 80; w := 15; h := 5 |};
     imageDataUrl := webpUrl |}.

Definition initials3 : Placement :=
  {| id := "u4"; pageIndex := 2; rect := exampleRect; imageDataUrl := pngDot |}.

Definition signedContract : Browser :=
  {| downloads :=
       [{| download_name := "contract_v2-signed.pdf";
           download_body := [Byte.x25; Byte.x50; Byte.x2a; Byte.x2a] |}];
     objectUrls := 1 |}.

End Samples.

(* ===================================================================== *)
(** ** src/components/PdfViewer.tsx: placing, showing, resizing, deleting  *)
(* ===================================================================== *)

Module PdfViewerPlace.
Import JsNum AppStore PdfViewer.
Local Open Scope Q_scope.
Local Open Scope string_scope.

(** The rect [handlePlacement] computes for a click at [(clientX, clientY)]
    on a canvas whose bounding box is [canvasRect]: a 220 x 60 px signature
    centred on the click, clamped into the page.  (For a box of width or
    height 0 JavaScript divides by zero; the model is meant for boxes of
    positive size.) *)
Definition placementRect (canvasRect : DOMRect) (clientX clientY : number)
    : PercentRect :=
  let x0 := clientX - dom_left canvasRect in
  let y0 := clientY - dom_top canvasRect in
  let percentX := (x0 / dom_width canvasRect) * 100 in
  let percentY := (y0 / dom_height canvasRect) * 100 in
  let percentW := (220 / dom_width canvasRect) * 100 in
  let percentH := (60 / dom_height canvasRect) * 100 in
  let clampedX := Math_max 0 (Math_min (percentX - percentW / 2)
                                       (100 - percentW)) in
  let clampedY := Math_max 0 (Math_min (percentY - percentH / 2)
                                       (100 - percentH)) in
  {| x := clampedX; y := clampedY; w := percentW; h := percentH |}.

(** [handlePlacement(clientX, clientY)] on the page in slot [pageIndex].
    [currentSignature] is the value the effect closed over ([null] and the
    empty string are falsy); [uuid] is the id the store draws.  Without a
    signature the handler only clears CSS classes. *)
Definition handlePlacement (currentSignature : option string)
    (pageIndex : nat) (canvasRect : DOMRect) (clientX clientY : number)
    (uuid : string) (s : S) : S :=
  match currentSignature with
  | Some (String c u) =>
      addPlacement uuid (inject_Z (Z.of_nat pageIndex))
        (placementRect canvasRect clientX clientY) (String c u) s
  | _ => s
  end.


(** *** Tap-to-place on a page wrapper *)

(** The four variables the three touch listeners of a wrapper share. *)
Record TapState :=
  { touchStartX : number; touchStartY : number;
    touchStartTime : number; hasMoved : bool }.

Definition tapInitial : TapState :=
  {| touchStartX := 0; touchStartY := 0; touchStartTime := 0;
     hasMoved := false |}.

(** A touch event on the wrapper: the number of touches it lists
    ([touches.length], for [touchend] [changedTouches.length]), the client
    position of the first of them, and for the events that read the clock
    the value of [Date.now()]. *)
Inductive TouchEvent :=
| TouchStart (touches : nat) (clientX clientY now : number)
| TouchMove (touches : nat) (clientX clientY : number)
| TouchEnd (changedTouches : nat) (clientX clientY now : number).

(** One listener call: the new state and, when the tap is taken for a
    placement, the point handed to [handlePlacement]. *)
Definition tapDispatch (e : TouchEvent) (t : TapState)
    : TapState * option (number * number) :=
  match e with
  | TouchStart n cx cy now =>
      if Nat.eqb n 1
      then ({| touchStartX := cx; touchStartY := cy; touchStartTime := now;
               hasMoved := false |}, None)
      else (t, None)
  | TouchMove n cx cy =>
      if Nat.eqb n 1
      then
        let deltaX := Math_abs (cx - touchStartX t) in
        let deltaY := Math_abs (cy - touchStartY t) in
        if gtb deltaX 10 || gtb deltaY 10
        then ({| touchStartX := touchStartX t; touchStartY := touchStartY t;
                 touchStartTime := touchStartTime t; hasMoved := true |}, None)
        else (t, None)
      else (t, None)
  | TouchEnd n cx cy now =>
      if Nat.ltb 0 n && negb (hasMoved t)
      then
        let touchDuration := now - touchStartTime t in
        let deltaX := Math_abs (cx - touchStartX t) in
        let deltaY := Math_abs (cy - touchStartY t) in
        if ltb touchDuration 300 && gtb touchDuration 50
           && ltb deltaX 5 && ltb deltaY 5
        then (t, Some (cx, cy))
        else (t, None)
      else (t, None)
  end.

(** The points placed by a sequence of touch events, in order. *)
Fixpoint taps (es : list TouchEvent) (t : TapState) : list (number * number) :=
  match es with
  | [] => []
  | e :: es' =>
      let '(t', placed) := tapDispatch e t in
      match placed with
      | Some pt => pt :: taps es' t'
      | None => taps es' t'
      end
  end.

(** *** Deleting *)

(** The [keydown] listener.  [selected] is the [placementId] of the element
    matching [.sig-img.selected], if there is one and it has one;
    [confirmAnswer] is what the user answers should [confirm] be shown. *)
Definition handleKeyDown (key : string) (selected : option string)
    (confirmAnswer : bool) (s : S) : S :=
  if String.eqb key "Delete" || String.eqb key "Backspace"
  then match selected with
       | Some (String c i) =>
           if confirmAnswer then removePlacement (String c i) s else s
       | _ => s
       end
  else s.

(** The [contextmenu] listener and the long-press timer of the overlay of
    the placement [p]. *)
Definition confirmDelete (p : Placement) (confirmAnswer : bool) (s : S) : S :=
  if confirmAnswer then removePlacement (id p) s else s.

End PdfViewerPlace.

Module PdfViewerResize.
Import JsNum AppStore PdfViewer.
Local Open Scope Q_scope.

(** The variables one [startResize] call and its closures share. *)
Record ResizeSession :=
  { isResizing : bool;
    resizeStartX : number;
    resizeStartY : number;
    resizeStartRect : PercentRect;
    resizeTarget : string (* p.id *) }.

(** [startResize(startX, startY)] on the handle of the overlay of [p]. *)
Definition startResize (p : Placement) (startX0 startY0 : number)
    : ResizeSession :=
  {| isResizing := true; resizeStartX := startX0; resizeStartY := startY0;
     resizeStartRect := rect p; resizeTarget := id p |}.

(** [handleResizeMove(moveX, moveY)]: the [updatePlacement] calls made (none
    or one).  (Boxes of width or height 0: as for [placementRect].) *)
Definition handleResizeMove (canvasRect : DOMRect) (moveX moveY : number)
    (r : ResizeSession) : list UpdateCall :=
  if negb (isResizing r) then []
  else
    let dx := moveX - resizeStartX r in
    let dy := moveY - resizeStartY r in
    let percentDx := (dx / dom_width canvasRect) * 100 in
    let percentDy := (dy / dom_height canvasRect) * 100 in
    let minW := 5 in
    let minH := 3 in
    let maxW := 100 - x (resizeStartRect r) in
    let maxH := 100 - y (resizeStartRect r) in
    let newRect :=
      {| x := x (resizeStartRect r); y := y (resizeStartRect r);
         w := Math_max minW (Math_min maxW (w (resizeStartRect r) + percentDx));
         h := Math_max minH (Math_min maxH (h (resizeStartRect r) + percentDy))
      |} in
    [(resizeTarget r, newRect)].

Definition handleResizeEnd (r : ResizeSession) : ResizeSession :=
  {| isResizing := false; resizeStartX := resizeStartX r;
     resizeStartY := resizeStartY r; resizeStartRect := resizeStartRect r;
     resizeTarget := resizeTarget r |}.

(** The two-finger branch of the overlay's [touchmove] listener, from the
    scale factor on.  [initialDistance] and [currentDistance] are the finger
    distances as [Math.sqrt] returned them at the start of the pinch and in
    this call; [initialRect] is the rect copied at the start.  (A pinch that
    starts with both fingers on one point divides by zero.) *)
Definition pinchMove (p : Placement) (initialRect : PercentRect)
    (initialDistance currentDistance : number) : UpdateCall :=
  let scaleFactor := currentDistance / initialDistance in
  let minW := 5 in
  let minH := 3 in
  let maxW := Math_min 50 (100 - x initialRect) in
  let maxH := Math_min 30 (100 - y initialRect) in
  let newW := Math_max minW (Math_min maxW (w initialRect * scaleFactor)) in
  let newH := Math_max minH (Math_min maxH (h initialRect * scaleFactor)) in
  (id p, {| x := x initialRect; y := y initialRect; w := newW; h := newH |}).

End PdfViewerResize.

(* ===================================================================== *)
(** ** The signature panel and the application shell                      *)
(* ===================================================================== *)

(** [SignaturePanel]: the filter of the "type your name" field and the
    panel's own data-URL test.  (The component sits behind the viewer in the
    same source file.) *)
Module SignaturePanel.
Import AppStore PdfExport.
Local Open Scope string_scope.

Fixpoint filterChars (keep : ascii -> bool) (s : string) : string :=
  match s with
  | EmptyString => EmptyString
  | String c s' =>
      if keep c then String c (filterChars keep s') else filterChars keep s'
  end.

(** The class of the first [replace]: the six characters  <  >  double
    quote  apostrophe  &  and the backtick. *)
Definition isDangerousChar (c : ascii) : bool :=
  existsb (Nat.eqb (nat_of_ascii c)) [60; 62; 34; 39; 38; 96]%nat.

(** [\w]. *)
Definition isWordChar (c : ascii) : bool :=
  let n := nat_of_ascii c in
  ((65 <=? n) && (n <=? 90))%nat || ((97 <=? n) && (n <=? 122))%nat
  || ((48 <=? n) && (n <=? 57))%nat || (n =? 95)%nat.

(** The class [[\w\s\.\-']] the third [replace] keeps. *)
Definition isAllowedChar (c : ascii) : bool :=
  isWordChar c || isSpace c
  || existsb (Nat.eqb (nat_of_ascii c)) [46; 45; 39]%nat.

(** [s] starts with [word], letters compared without case. *)
Definition startsWithNoCase (word s : string) : bool :=
  match stripPrefix word (mapChars lower (String.substring 0 (String.length word) s)) with
  | Some EmptyString => true
  | _ => false
  end.

(** [.replace(/word/gi, '')] for a lower-case literal [word]: the matches
    are found from left to right and do not overlap.  [skip] counts the
    characters of the current match still to be dropped. *)
Fixpoint removeNoCase (word : string) (skip : nat) (s : string) : string :=
  match s with
  | EmptyString => EmptyString
  | String c s' =>
      match skip with
      | Datatypes.S k => removeNoCase word k s'
      | O =>
          if startsWithNoCase word s
          then removeNoCase word (String.length word - 1) s'
          else String c (removeNoCase word 0 s')
      end
  end.

(** [handleTypedChange]: the value stored for what the field holds. *)
Definition handleTypedChange (rawValue : string) : string :=
  String.substring 0 50
    (filterChars isAllowedChar
       (removeNoCase "javascript:" 0
          (filterChars (fun c => negb (isDangerousChar c)) rawValue))).

(** The first [;] splits off the media subtype: [[^;]+] stops there. *)
Fixpoint untilSemicolon (s : string) : string * string :=
  match s with
  | EmptyString => (EmptyString, EmptyString)
  | String c s' =>
      if Ascii.eqb c ";"%char then (EmptyString, s)
      else let '(pre, rest) := untilSemicolon s' in (String c pre, rest)
  end.

(** The panel's [isValidDataURL]:
    [/^data:image\/[^;]+;base64,[A-Za-z0-9+/=]+$/]. *)
Definition isValidDataURL (dataUrl : string) : bool :=
  match stripPrefix "data:image/" dataUrl with
  | Some rest =>
      match untilSemicolon rest with
      | (String _ _, tail) =>
          match stripPrefix ";base64," tail with
          | Some (String c body) =>
              isBase64Char c && allChars isBase64Char body
          | _ => false
          end
      | _ => false
      end
  | None => false
  end.

End SignaturePanel.

(** [App]: the file input of the sidebar. *)
Module App.
Import AppStore.
Local Open Scope string_scope.

(** [50 * 1024 * 1024]. *)
Definition MAX_PDF_SIZE : Z := 50 * 1024 * 1024.

(** "Check PDF magic number": at least four bytes, the first four [%PDF]. *)
Definition hasPdfMagic (bs : list Byte.byte) : bool :=
  match bs with
  | b0 :: b1 :: b2 :: b3 :: _ =>
      Byte.eqb b0 Byte.x25 && Byte.eqb b1 Byte.x50
      && Byte.eqb b2 Byte.x44 && Byte.eqb b3 Byte.x46
  | _ => false
  end.

(** [handlePdfUpload].  [chosen] is the first file of the input with its
    [type], if there is one; [readOk] tells whether the [FileReader] ends in
    [onload] (rather than [onerror]).  The result lists the [alert]s. *)
Definition handlePdfUpload (chosen : option (File * string)) (readOk : bool)
    (s : S) : S * list string :=
  match chosen with
  | None => (s, [])
  | Some (f, type) =>
      if (Z.of_nat (length (bytes f)) >? MAX_PDF_SIZE)%Z
      then (s, ["PDF file too large. Maximum size is 50MB."])
      else if negb (String.eqb type "application/pdf")
      then (s, ["Invalid file type. Only PDF files are allowed."])
      else if negb readOk
      then (s, ["Failed to read PDF file. Please try again."])
      else if negb (hasPdfMagic (bytes f))
      then (s, ["Invalid PDF file format."])
      else (loadFile f s, [])
  end.

End App.

(* ===================================================================== *)
(** ** Sessions: sequences of store actions                               *)
(* ===================================================================== *)

Module Session.
Import JsNum AppStore.

(** The actions of the store that write its state. *)
Inductive Action :=
| LoadFile (f : File)
| ClearAll
| SetPages (canvases : list HTMLCanvasElement) (sizes : list Size)
| SetPageSizes (sizes : list Size)
| SetCurrentSignature (d : option string)
| AddPlacement (uuid : string) (pageIndex : number) (rect : PercentRect)
               (imageDataUrl : string)
| UpdatePlacement (id0 : string) (rect : PercentRect)
| RemovePlacement (id0 : string)
| ClearAllPlacements.

Definition act (a : Action) (s : S) : S :=
  match a with
  | LoadFile f => loadFile f s
  | ClearAll => clearAll s
  | SetPages canvases sizes => setPages canvases sizes s
  | SetPageSizes sizes => setPageSizes sizes s
  | SetCurrentSignature d => setCurrentSignature d s
  | AddPlacement uuid i r url => addPlacement uuid i r url s
  | UpdatePlacement id0 r => updatePlacement id0 r s
  | RemovePlacement id0 => removePlacement id0 s
  | ClearAllPlacements => clearAllPlacements s
  end.

(** The state after a sequence of actions, applied in order. *)
Definition session (acts : list Action) (s : S) : S :=
  fold_left (fun s a => act a s) acts s.

End Session.

(* ===================================================================== *)
(** ** Further vocabulary and sample data                                 *)
(* ===================================================================== *)

(** [exportAll] of the store (src/store/appStore.ts), with the copy [c] of
    [exportSignedPdf] behind its import. *)
Module StoreExport.
Import AppStore PdfExport Vocabulary.
Local Open Scope string_scope.

Definition exportAllOf {lib : PdfLib} (c : Copy) (s : S) (b : Browser)
    : list string * Browser :=
  match pdfFile s with
  | None => (["Please load a PDF file first"], b)
  | Some file =>
      match placements s with
      | [] => (["Please add at least one signature to the PDF"], b)
      | ps =>
          match exportSignedPdfOf c file ps b with
          | (Return _, b') => ([], b')
          | (Throw _, b') => (["Failed to export PDF. Please try again."], b')
          end
      end
  end.

End StoreExport.

Module MoreVocabulary.
Import JsNum AppStore PdfViewer PdfViewerPlace PdfViewerResize PdfExport
       Session Vocabulary StoreExport.
Local Open Scope Q_scope.
Local Open Scope string_scope.
Local Open Scope list_scope.

(** A placement that would pass the three guards of [addPlacement]. *)
Definition placementOk (p : Placement) : Prop :=
  isValidDataURL (imageDataUrl p) = true
  /\ ~ malformedPageIndex (pageIndex p)
  /\ ~ fieldOutOfRange (rect p).

(** A current signature [setCurrentSignature] would take: none, the empty
    string, or a valid data URL. *)
Definition signatureOk (d : option string) : Prop :=
  match d with
  | Some (String c u) => isValidDataURL (String c u) = true
  | _ => True
  end.

Definition storeOk (s : S) : Prop :=
  Forall placementOk (placements s) /\ signatureOk (currentSignature s).

(** An action that is not an [updatePlacement] with a rect [addPlacement]
    would refuse. *)
Definition guardedUpdate (a : Action) : Prop :=
  match a with
  | UpdatePlacement _ r => ~ fieldOutOfRange r
  | _ => True
  end.

(** The ids of the stored placements, in order. *)
Definition ids (s : S) : list string := map id (placements s).

(** An [addPlacement] whose id is not in use yet (any other action counts
    as fresh). *)
Definition freshAdd (a : Action) (s : S) : Prop :=
  match a with
  | AddPlacement uuid _ _ _ => ~ In uuid (ids s)
  | _ => True
  end.

(** The base64 alphabet, as a proposition on strings. *)
Definition base64Body (body : string) : Prop :=
  body <> "" /\ allChars isBase64Char body = true.


(** A box a page can be shown in: positive width and height. *)
Definition shown (canvasRect : DOMRect) : Prop :=
  0 < dom_width canvasRect /\ 0 < dom_height canvasRect.


(** The canvas box read during a move is that of a page on show. *)
Definition onShownCanvas (e : DragEvent) : Prop :=
  match e with
  | PointerMove canvasRect _ _ => shown canvasRect
  | PointerUp => True
  end.

(** [r] keeps the size of [r0] and lies on the page. *)
Definition movedOnPage (r0 r : PercentRect) : Prop :=
  w r = w r0 /\ h r = h r0
  /\ 0 <= x r /\ x r + w r <= 100 /\ 0 <= y r /\ y r + h r <= 100.

(** No event of the list is a [touchstart] with exactly one finger. *)
Definition noSingleStart (e : TouchEvent) : Prop :=
  match e with
  | TouchStart n _ _ _ => n <> 1%nat
  | _ => True
  end.

(** Every character of the string passes the test. *)
Definition everyChar (f : ascii -> bool) (s : string) : Prop :=
  allChars f s = true.

(** What survives the filter of the name field: allowed and not
    dangerous. *)
Definition isPlainChar (c : ascii) : bool :=
  SignaturePanel.isAllowedChar c && negb (SignaturePanel.isDangerousChar c).




End MoreVocabulary.

Module MoreSamples.
Import JsNum AppStore PdfViewer PdfViewerPlace PdfViewerResize PdfExport
       Session Vocabulary Samples MoreVocabulary.
Local Open Scope Q_scope.
Local Open Scope string_scope.
Local Open Scope list_scope.

Definition jpegUrl : string := "data:image/jpeg;base64,/9j/4AAQ".

Definition gifUrl : string := "data:image/gif;base64,R0lGODlh".

(** A short session: load, choose a signature, place two, drag one inside
    the page, delete the other. *)
Definition shortSession : list Action :=
  [ LoadFile contract;
    SetCurrentSignature (Some pngDot);
    AddPlacement "u1" 0 smallRect pngDot;
    AddPlacement "u2" 1 wideRect pngDot;
    UpdatePlacement "u1" {| x := 30; y := 40; w := 15; h := 5 |};
    RemovePlacement "u2" ].

Definition twoSigned : S :=
  addPlacement "u2" 1 wideRect jpegUrl oneSigned.

Definition pdfHeader : list Byte.byte :=
  [Byte.x25; Byte.x50; Byte.x44; Byte.x46; Byte.x2d; Byte.x31].

Definition realPdf : File := {| name := "deed.pdf"; bytes := pdfHeader |}.

(** A toy pdf-lib like [demoLib] whose [save] always returns. *)
Definition plainLib : PdfLib :=
  {| parsePages := @parsePages demoLib;
     decodesAsPng := @decodesAsPng demoLib;
     decodesAsJpg := @decodesAsJpg demoLib;
     serialize doc := Some (doc_source doc ++ repeat Byte.x2a (drawsOf doc)) |}.

End MoreSamples.

(* ===================================================================== *)
(** * Properties *)
(* ===================================================================== *)

Module JsNumFacts.
Import JsNum.
Local Open Scope Q_scope.

Lemma ltb_lt a b : ltb a b = true <-> (a < b)%Q.
Proof.
  unfold ltb. rewrite negb_true_iff, <- not_true_iff_false, Qle_bool_iff.
  split; [apply Qnot_le_lt | apply Qlt_not_le].
Qed.

Lemma ltb_ge a b : ltb a b = false <-> (b <= a)%Q.
Proof.
  unfold ltb. rewrite negb_false_iff. apply Qle_bool_iff.
Qed.

Lemma leb_le a b : leb a b = true <-> (a <= b)%Q.
Proof. apply Qle_bool_iff. Qed.

Lemma leb_gt a b : leb a b = false <-> (b < a)%Q.
Proof.
  unfold leb. rewrite <- not_true_iff_false, Qle_bool_iff.
  split; [apply Qnot_le_lt | apply Qlt_not_le].
Qed.

Lemma gtb_gt a b : gtb a b = true <-> (b < a)%Q.
Proof. apply ltb_lt. Qed.

Lemma Qred_inject_Z (z : Z) : Qred (inject_Z z) = inject_Z z.
Proof.
  unfold Qred, inject_Z.
  pose proof (Z.ggcd_gcd z 1) as Hg.
  pose proof (Z.ggcd_correct_divisors z 1) as Hd.
  destruct (Z.ggcd z 1) as [g [aa bb]]. cbn [fst snd] in *.
  rewrite Z.gcd_1_r in Hg. subst g. destruct Hd as [Ha Hb].
  rewrite !Z.mul_1_l in *. subst aa bb. reflexivity.
Qed.

Lemma arrayIndex_inject_Z (n : nat) : arrayIndex (inject_Z (Z.of_nat n)) = Some n.
Proof.
  unfold arrayIndex, Number_isInteger.
  rewrite Qred_inject_Z. unfold inject_Z.
  cbn [Qden Qnum Pos.eqb andb].
  replace (leb 0 (Z.of_nat n # 1)) with true.
  - now rewrite Nat2Z.id.
  - symmetry. apply leb_le. unfold Qle. cbn. lia.
Qed.

Lemma Number_isInteger_spec (a : number) :
  Number_isInteger a = true <-> exists z : Z, a == inject_Z z.
Proof.
  unfold Number_isInteger. rewrite Pos.eqb_eq. split.
  - intros Hden. exists (Qnum (Qred a)).
    rewrite <- (Qred_correct a) at 1.
    destruct (Qred a) as [n d]. cbn in *. subst d. reflexivity.
  - intros [z Hz]. apply Qred_complete in Hz.
    rewrite Hz, Qred_inject_Z. reflexivity.
Qed.

End JsNumFacts.

Module AppStoreExamples.
Import JsNum AppStore Samples.
Local Open Scope Q_scope.
Local Open Scope string_scope.

Example isValidDataURL_png : isValidDataURL pngDot = true.
Proof. reflexivity. Qed.

Example isValidDataURL_jpeg :
  isValidDataURL "data:image/jpeg;base64,/9j/4AAQ" = true.
Proof. reflexivity. Qed.

Example isValidDataURL_empty_payload :
  isValidDataURL "data:image/png;base64," = false.
Proof. reflexivity. Qed.

Example isValidDataURL_gif :
  isValidDataURL "data:image/gif;base64,R0lGOD" = false.
Proof. reflexivity. Qed.

Example isValidDataURL_trailing_newline :
  isValidDataURL ("data:image/png;base64,AAAA" ++ String "010" "") = false.
Proof. reflexivity. Qed.

End AppStoreExamples.

(* ===================================================================== *)
(** ** The placement store                                                *)
(* ===================================================================== *)

Module StoreProps.
Import JsNum JsNumFacts AppStore Vocabulary Samples.
Local Open Scope Q_scope.
Local Open Scope string_scope.
Local Open Scope list_scope.

Lemma invalidRect_spec (r : PercentRect) :
  invalidRect r = true <-> fieldOutOfRange r.
Proof.
  unfold invalidRect, fieldOutOfRange.
  rewrite !orb_true_iff, !leb_le, !ltb_lt, !gtb_gt. tauto.
Qed.

Lemma invalidPageIndex_spec (i : number) :
  invalidPageIndex i = true <-> malformedPageIndex i.
Proof.
  unfold invalidPageIndex, malformedPageIndex.
  rewrite orb_true_iff, ltb_lt, negb_true_iff, <- not_true_iff_false,
    Number_isInteger_spec. tauto.
Qed.

Lemma withPlacements_same (s : S) : withPlacements (placements s) s = s.
Proof. destruct s; reflexivity. Qed.

(** What [addPlacement] does when all three guards pass. *)
Lemma addPlacement_commits uuid i r url (s : S) :
  isValidDataURL url = true ->
  invalidPageIndex i = false ->
  invalidRect r = false ->
  addPlacement uuid i r url s
  = withPlacements
      (placements s ++ [{| id := uuid; pageIndex := i; rect := r;
                           imageDataUrl := url |}]) s.
Proof.
  intros Hu Hi Hr. unfold addPlacement. now rewrite Hu, Hi, Hr.
Qed.

(** The same, with the guards read as propositions. *)
Lemma addPlacement_appends uuid i r url (s : S) :
  isValidDataURL url = true -> ~ malformedPageIndex i ->
  ~ fieldOutOfRange r ->
  placements (addPlacement uuid i r url s)
  = placements s ++ [{| id := uuid; pageIndex := i; rect := r;
                        imageDataUrl := url |}].
Proof.
  intros Hu Hi Hr.
  rewrite addPlacement_commits; [reflexivity | assumption | | ].
  - apply not_true_iff_false. now rewrite invalidPageIndex_spec.
  - apply not_true_iff_false. now rewrite invalidRect_spec.
Qed.

(** Every field of the state except [placements] survives an
    [addPlacement]. *)
Lemma addPlacement_frame uuid i r url (s : S) :
  let s' := addPlacement uuid i r url s in
  pdfFile s' = pdfFile s /\ pages s' = pages s /\ pageSizes s' = pageSizes s
  /\ currentSignature s' = currentSignature s /\ hasDoc s' = hasDoc s.
Proof.
  unfold addPlacement.
  destruct (isValidDataURL url), (invalidPageIndex i), (invalidRect r);
    cbn; auto.
Qed.

(** C8. Loading a document empties the placements collection, whatever
    the session held before; the new file becomes the current document. *)
Theorem loadFile_clears_placements (f : File) (s : S) :
  placements (loadFile f s) = []
  /\ pdfFile (loadFile f s) = Some f
  /\ hasDoc (loadFile f s) = true.
Proof. repeat split. Qed.

(** C2, as the code has it.  [addPlacement] looks at the four fields of the
    rect one by one: a rect with [w <= 0], [h <= 0], [x < 0], [y < 0] or a
    field above 100 is rejected and the state is returned as it was; any
    other rect is appended (given a valid payload and page index), whether or
    not [x + w] and [y + h] stay within 100. *)
Theorem addPlacement_rect_guard uuid i (r : PercentRect) url (s : S) :
  (fieldOutOfRange r -> addPlacement uuid i r url s = s)
  /\ (isValidDataURL url = true -> ~ malformedPageIndex i ->
      ~ fieldOutOfRange r ->
      placements (addPlacement uuid i r url s)
      = placements s ++ [{| id := uuid; pageIndex := i; rect := r;
                            imageDataUrl := url |}]).
Proof.
  split.
  - intros Hr%invalidRect_spec. unfold addPlacement.
    rewrite Hr. now destruct (isValidDataURL url), (invalidPageIndex i).
  - apply addPlacement_appends.
Qed.

Lemma wideRect_in_range : ~ fieldOutOfRange wideRect.
Proof.
  unfold fieldOutOfRange, wideRect, Qle, Qlt. cbn. lia.
Qed.

Lemma zero_wellformed : ~ malformedPageIndex 0.
Proof.
  intros [H | H].
  - revert H. unfold Qlt. cbn. lia.
  - apply H. now exists 0%Z.
Qed.

Lemma addPlacement_rect_guard_witness :
  addPlacement "u1" 0 {| x := 10; y := 10; w := 0; h := 10 |} pngDot initial
  = initial
  /\ placements (addPlacement "u1" 0 wideRect pngDot initial)
     = [{| id := "u1"; pageIndex := 0; rect := wideRect;
           imageDataUrl := pngDot |}].
Proof.
  split.
  - apply (proj1 (addPlacement_rect_guard "u1" 0
                    {| x := 10; y := 10; w := 0; h := 10 |} pngDot initial)).
    left. unfold Qle. cbn. lia.
  - apply (proj2 (addPlacement_rect_guard "u1" 0 wideRect pngDot initial)).
    + reflexivity.
    + exact zero_wellformed.
    + exact wideRect_in_range.
Defined.

(** C2, as the specification words it, fails: the rect [{x:60, y:10, w:60,
    h:10}] has [x <= 100] and [w <= 100] but [x + w = 120]; it breaks the
    NormalizedRect invariant and [addPlacement] appends it all the same. *)
Lemma addPlacement_accepts_overflowing_rect :
  ~ normalizedRect wideRect
  /\ x wideRect <= 100 /\ w wideRect <= 100
  /\ placements (addPlacement "u1" 0 wideRect pngDot initial)
     = [{| id := "u1"; pageIndex := 0; rect := wideRect;
           imageDataUrl := pngDot |}]
  /\ placements (addPlacement "u1" 0 wideRect pngDot initial)
     <> placements initial.
Proof.
  repeat split.
  - unfold normalizedRect, wideRect, Qle, Qlt. cbn. lia.
  - unfold Qle. cbn. lia.
  - unfold Qle. cbn. lia.
  - discriminate.
Qed.

(** C4, as the code has it.  [addPlacement] rejects a page index that is
    negative or not an integer and returns the state as it was; every other
    page index is accepted (given a valid payload and rect) without being
    compared with the pages of the loaded document. *)
Theorem addPlacement_pageIndex_guard uuid (i : number) r url (s : S) :
  (malformedPageIndex i -> addPlacement uuid i r url s = s)
  /\ (isValidDataURL url = true -> ~ malformedPageIndex i ->
      ~ fieldOutOfRange r ->
      placements (addPlacement uuid i r url s)
      = placements s ++ [{| id := uuid; pageIndex := i; rect := r;
                            imageDataUrl := url |}]).
Proof.
  split.
  - intros Hi%invalidPageIndex_spec. unfold addPlacement.
    rewrite Hi. now destruct (isValidDataURL url).
  - apply addPlacement_appends.
Qed.

Lemma smallRect_in_range : ~ fieldOutOfRange smallRect.
Proof.
  unfold fieldOutOfRange, smallRect, Qle, Qlt. cbn. lia.
Qed.

Lemma five_wellformed : ~ malformedPageIndex 5.
Proof.
  intros [H | H].
  - revert H. unfold Qlt. cbn. lia.
  - apply H. now exists 5%Z.
Qed.

Lemma addPlacement_pageIndex_guard_witness :
  addPlacement "u1" (-1) smallRect pngDot onePage = onePage
  /\ placements (addPlacement "u1" 5 smallRect pngDot onePage)
     = [{| id := "u1"; pageIndex := 5; rect := smallRect;
           imageDataUrl := pngDot |}].
Proof.
  split.
  - apply (proj1 (addPlacement_pageIndex_guard "u1" (-1) smallRect pngDot
                    onePage)).
    left. unfold Qlt. cbn. lia.
  - apply (proj2 (addPlacement_pageIndex_guard "u1" 5 smallRect pngDot
                    onePage)).
    + reflexivity.
    + exact five_wellformed.
    + exact smallRect_in_range.
Defined.

(** C4, as the specification words it, fails: with one page loaded, page
    index 5 addresses no page, and [addPlacement] appends the placement. *)
Lemma addPlacement_accepts_absent_page :
  length (pages onePage) = 1%nat
  /\ length (pageSizes onePage) = 1%nat
  /\ placements (addPlacement "u1" 5 smallRect pngDot onePage)
     = [{| id := "u1"; pageIndex := 5; rect := smallRect;
           imageDataUrl := pngDot |}]
  /\ placements (addPlacement "u1" 5 smallRect pngDot onePage)
     <> placements onePage.
Proof. repeat split. discriminate. Qed.

(** [updatePlacement] has no guard: the rect of the placement named by the
    id becomes the argument, whatever the argument is. *)
Lemma updatePlacement_overwrites id0 (r : PercentRect) (s : S) (p : Placement) :
  In p (placements s) -> id p = id0 ->
  In {| id := id p; pageIndex := pageIndex p; rect := r;
        imageDataUrl := imageDataUrl p |}
     (placements (updatePlacement id0 r s)).
Proof.
  intros Hin Hid. unfold updatePlacement. cbn.
  apply in_map_iff. exists p. split; [ | assumption].
  subst id0. now rewrite String.eqb_refl.
Qed.

(** C3 on the code.  The store holds placement ["u1"] with a valid rect;
    [updatePlacement "u1"] with the rect [{x:-5, y:120, w:0, h:-1}], which
    [addPlacement] refuses, replaces the stored rect by it. *)
Theorem updatePlacement_stores_invalid_rect :
  placements oneSigned
  = [{| id := "u1"; pageIndex := 0; rect := smallRect;
        imageDataUrl := pngDot |}]
  /\ ~ normalizedRect badRect
  /\ addPlacement "u2" 0 badRect pngDot oneSigned = oneSigned
  /\ placements (updatePlacement "u1" badRect oneSigned)
     = [{| id := "u1"; pageIndex := 0; rect := badRect;
           imageDataUrl := pngDot |}].
Proof.
  repeat split.
  unfold normalizedRect, badRect, Qle, Qlt. cbn. lia.
Qed.

(** C10. For an id that no stored placement carries, [updatePlacement] (with
    any rect) and [removePlacement] return a state equal to the one they
    were given; both are total functions, so nothing is thrown. *)
Theorem unknown_id_is_noop id0 (r : PercentRect) (s : S) :
  (forall p, In p (placements s) -> id p <> id0) ->
  updatePlacement id0 r s = s /\ removePlacement id0 s = s.
Proof.
  intros Hfresh. unfold updatePlacement, removePlacement.
  assert (Hneq : forall p, In p (placements s) -> String.eqb (id p) id0 = false).
  { intros p Hp. apply String.eqb_neq. auto. }
  split.
  - replace (map _ (placements s)) with (placements s);
      [apply withPlacements_same | ].
    rewrite <- (map_id (placements s)) at 1.
    apply map_ext_in. intros p Hp. now rewrite (Hneq p Hp).
  - replace (List.filter _ (placements s)) with (placements s);
      [apply withPlacements_same | ].
    clear Hfresh. induction (placements s) as [ | p ps IH]; [reflexivity | ].
    cbn. rewrite (Hneq p) by now left. cbn. f_equal.
    apply IH. intros q Hq. apply Hneq. now right.
Qed.

Lemma unknown_id_is_noop_witness :
  updatePlacement "u9" badRect oneSigned = oneSigned
  /\ removePlacement "u9" oneSigned = oneSigned.
Proof.
  apply (unknown_id_is_noop "u9" badRect oneSigned).
  intros p [<- | []]. discriminate.
Defined.

End StoreProps.

(* ===================================================================== *)
(** ** The drag threshold                                                 *)
(* ===================================================================== *)

Module DragProps.
Import JsNum JsNumFacts AppStore PdfViewer Vocabulary Samples.
Local Open Scope Q_scope.
Local Open Scope string_scope.
Local Open Scope list_scope.









Example startDrag_body :
  startDrag signature1 overlayBox 1280 150 220 true = Some pressed.
Proof. reflexivity. Qed.

(** A press inside the 30 px corner of the resize handle opens no session,
    and the mouse gesture that follows moves nothing. *)
Example startDrag_handle_corner :
  startDrag signature1 overlayBox 1280 310 255 true = None
  /\ mouseGesture signature1 overlayBox 1280 310 255
       [PointerMove canvasBox 350 255; PointerUp] = [].
Proof. split; reflexivity. Qed.

Example mouseGesture_body :
  map fst (mouseGesture signature1 overlayBox 1280 150 220
             [PointerMove canvasBox 158 220; PointerUp]) = ["u1"].
Proof. reflexivity. Qed.


(** The calls of the sample gestures, computed. *)
Example gesture_two_units :
  gesture [PointerMove canvasBox 152 220; PointerUp] pressed = [].
Proof. reflexivity. Qed.

Example gesture_eight_units :
  map fst (gesture [PointerMove canvasBox 158 220; PointerUp] pressed) = ["u1"]
  /\ Forall (fun c => x (snd c) == 10 + 800 / 918 /\ y (snd c) == 20
                      /\ w (snd c) == 24 /\ h (snd c) == 5)
            (gesture [PointerMove canvasBox 158 220; PointerUp] pressed).
Proof.
  split; [reflexivity | ]. repeat constructor; reflexivity.
Qed.

(** The two gestures, replayed on a store that holds the placement: the
    short one leaves it where it was, the long one moves it to the right by
    8 px of a 918 px wide canvas. *)
Example gesture_on_store :
  let s := addPlacement "u1" 0 (rect signature1) pngDot onePage in
  applyCalls (gesture [PointerMove canvasBox 152 220; PointerUp] pressed) s = s
  /\ Forall (fun p => id p = "u1" /\ x (rect p) == 10 + 800 / 918
                      /\ y (rect p) == 20 /\ w (rect p) == 24
                      /\ h (rect p) == 5)
            (placements
               (applyCalls
                  (gesture [PointerMove canvasBox 158 220; PointerUp] pressed)
                  s)).
Proof.
  split; [reflexivity | ]. repeat constructor; reflexivity.
Qed.

(** Once the threshold has been crossed the session follows every sample,
    also one that comes back next to the start point. *)
Example gesture_back_to_start :
  map fst (gesture [PointerMove canvasBox 158 220; PointerMove canvasBox 151 220;
                    PointerUp; PointerMove canvasBox 190 220] pressed)
  = ["u1"; "u1"].
Proof. reflexivity. Qed.

(** The older copy of the component behaves the same way at its threshold
    of 3: a first sample at distance 2 from the press is ignored, one at
    distance 8 makes a call. *)
Lemma pixel_copy_threshold (d : DragSession) wrapRect cx cy :
  isDragging d = true -> dragStarted d = false ->
  (displacement2 d cx cy == 2 * 2 ->
   PdfViewerPixels.handleMouseMove wrapRect cx cy d = (d, []))
  /\ (displacement2 d cx cy == 8 * 8 ->
      exists d' r,
        PdfViewerPixels.handleMouseMove wrapRect cx cy d
        = (d', [(target d, r)])).
Proof.
  intros Hdrag Hfresh. unfold displacement2, PdfViewerPixels.handleMouseMove.
  rewrite Hdrag, Hfresh. cbn [negb andb].
  unfold PdfViewerPixels.dragThreshold, Math_abs.
  generalize (cx - startX d) (cy - startY d). intros a b. split; intros H.
  - assert (Ha : ltb (Qabs a) 3 = true)
      by (apply ltb_lt, Qabs_Qlt_condition; split; nra).
    assert (Hb : ltb (Qabs b) 3 = true)
      by (apply ltb_lt, Qabs_Qlt_condition; split; nra).
    now rewrite Ha, Hb.
  - assert (Hab : ltb (Qabs a) 3 && ltb (Qabs b) 3 = false).
    { apply not_true_is_false. rewrite andb_true_iff, !ltb_lt.
      intros [[? ?]%Qabs_Qlt_condition [? ?]%Qabs_Qlt_condition]. nra. }
    rewrite Hab. eexists _, _. reflexivity.
Qed.

Lemma eight_units_within_fifteen (a b : number) :
  a * a + b * b == 8 * 8 -> Qabs a <= 15 /\ Qabs b <= 15.
Proof.
  intros H. split; apply Qabs_Qle_condition; split; nra.
Qed.

(** A finger needs more than 15 px along one axis before the overlay's
    [touchmove] listener calls [startDrag]: a finger at distance 8 from
    where it went down has not opened a session yet. *)
Lemma touch_gate_closed_at_eight imgRect innerWidth tx ty cx cy :
  (cx - tx) * (cx - tx) + (cy - ty) * (cy - ty) == 8 * 8 ->
  touchStartsDrag imgRect innerWidth tx ty cx cy = false.
Proof.
  intros [Hx Hy]%eight_units_within_fifteen. unfold touchStartsDrag.
  apply ltb_ge in Hx, Hy. unfold gtb, Math_abs. rewrite Hx, Hy.
  apply andb_false_r.
Qed.

End DragProps.

(* ===================================================================== *)
(** ** The export loop                                                    *)
(* ===================================================================== *)

Module ExportProps.
Import JsNum JsNumFacts AppStore PdfExport Vocabulary Samples.
Local Open Scope Q_scope.
Local Open Scope string_scope.
Local Open Scope list_scope.

Section Loop.
Context {lib : PdfLib}.
Variable toPdf : Size -> PercentRect -> DrawOptions.

Lemma embedsOf_app u doc img :
  embedsOf u {| doc_source := doc_source doc; doc_pages := doc_pages doc;
                doc_images := doc_images doc ++ [img] |}
  = (embedsOf u doc
     + if String.eqb (image_source img) u then 1 else 0)%nat.
Proof.
  unfold embedsOf. cbn. rewrite List.filter_app, length_app. cbn.
  now destruct (String.eqb (image_source img) u).
Qed.

Lemma embedsOf_drawImage u doc k img o :
  embedsOf u (drawImage doc k img o) = embedsOf u doc.
Proof. reflexivity. Qed.

(** A fresh load holds no image and no draw. *)
Lemma load_fresh source doc :
  load source = Return doc ->
  doc_source doc = source /\ doc_images doc = []
  /\ (forall k, contentOf k doc = [])
  /\ cacheAgrees (doc, ∅).
Proof.
  unfold load. destruct (parsePages source) as [sizes | ]; [ | discriminate].
  intros [= <-].
  split; [reflexivity | split; [reflexivity | split; [ | split]]]; cbn.
  - intros k. unfold contentOf. cbn. rewrite list_lookup_fmap.
    now destruct (sizes !! k).
  - intros u img. now rewrite lookup_empty.
  - intros u. now rewrite lookup_empty.
Qed.

(** The image step: a hit returns the cached handle and touches nothing; a
    miss embeds once and records the handle. *)
Lemma cachedImage_spec doc cache u img doc' cache' :
  cachedImage (doc, cache) u = Return (img, (doc', cache')) ->
  (cache !! u = Some img /\ doc' = doc /\ cache' = cache)
  \/ (cache !! u = None /\ image_source img = u
      /\ (decodesAsPng u = true \/ decodesAsJpg u = true)
      /\ doc' = {| doc_source := doc_source doc; doc_pages := doc_pages doc;
                   doc_images := doc_images doc ++ [img] |}
      /\ cache' = <[u := img]> cache).
Proof.
  unfold cachedImage. destruct (cache !! u) as [hit | ] eqn:Hc.
  - intros [= <- <- <-]. now left.
  - intros H. right. unfold embedPng, embedJpg, embed in H.
    destruct (decodesAsPng u) eqn:Hpng; cbn in H.
    + injection H as <- <- <-. cbn. auto 6.
    + destruct (decodesAsJpg u) eqn:Hjpg; cbn in H; [ | discriminate].
      injection H as <- <- <-. cbn. auto 6.
Qed.

Lemma getPage_spec doc i k page :
  getPage doc i = Some (k, page)
  <-> arrayIndex i = Some k /\ doc_pages doc !! k = Some page.
Proof.
  unfold getPage. destruct (arrayIndex i) as [j | ]; [ | now split; [ | intros []]].
  destruct (doc_pages doc !! j) as [pg | ] eqn:Hj.
  - split; [intros [= <- <-]; auto | ]. intros [[= <-] H]. congruence.
  - split; [discriminate | ]. intros [[= <-] H]. congruence.
Qed.

Lemma placeOne_spec st p st' :
  placeOne toPdf st p = Return st' ->
  exists k page img doc1,
    getPage (fst st) (pageIndex p) = Some (k, page)
    /\ cachedImage st (imageDataUrl p) = Return (img, (doc1, snd st'))
    /\ fst st' = drawImage doc1 k img (toPdf (page_size page) (rect p)).
Proof.
  unfold placeOne.
  destruct (getPage (fst st) (pageIndex p)) as [[k page] | ]; [ | discriminate].
  destruct (cachedImage st (imageDataUrl p)) as [[img [doc1 cache1]] | ];
    [ | discriminate].
  cbn. intros [= <-]. now exists k, page, img, doc1.
Qed.

(** What one [drawImage] changes. *)
Lemma contentOf_drawImage doc k img o j page :
  doc_pages doc !! k = Some page ->
  contentOf j (drawImage doc k img o)
  = if Nat.eqb k j
    then page_content page ++ [{| op_image := img; op_at := o |}]
    else contentOf j doc.
Proof.
  intros Hk. unfold contentOf, drawImage. cbn [doc_pages].
  destruct (Nat.eqb_spec k j) as [<- | Hne].
  - now rewrite list_lookup_alter_eq, Hk.
  - now rewrite list_lookup_alter_ne.
Qed.

Lemma pages_drawImage doc k img o j :
  doc_pages (drawImage doc k img o) !! j
  = (fun page => if Nat.eqb k j
                 then {| page_size := page_size page;
                         page_content :=
                           page_content page
                           ++ [{| op_image := img; op_at := o |}] |}
                 else page) <$> doc_pages doc !! j.
Proof.
  unfold drawImage. cbn [doc_pages].
  destruct (Nat.eqb_spec k j) as [<- | Hne].
  - now rewrite list_lookup_alter_eq.
  - rewrite list_lookup_alter_ne by assumption.
    now destruct (doc_pages doc !! j).
Qed.

Lemma sizes_drawImage doc k img o :
  map page_size (doc_pages (drawImage doc k img o))
  = map page_size (doc_pages doc).
Proof.
  unfold drawImage. cbn [doc_pages]. generalize (doc_pages doc) as l.
  revert k. induction k as [ | k IH]; intros [ | pg l]; cbn; try reflexivity.
  f_equal. apply IH.
Qed.

Lemma drawsOf_drawImage doc k img o page :
  doc_pages doc !! k = Some page ->
  drawsOf (drawImage doc k img o) = Datatypes.S (drawsOf doc).
Proof.
  unfold drawsOf, drawImage. cbn [doc_pages]. generalize (doc_pages doc) as l.
  revert k. induction k as [ | k IH]; intros [ | pg l]; cbn; try discriminate.
  - intros [= ->]. rewrite !length_app. cbn. lia.
  - intros Hk. rewrite !length_app. rewrite (IH l Hk). lia.
Qed.

(** One turn of the loop keeps the cache and the document in agreement. *)
Lemma cachedImage_agrees st u img st' :
  cacheAgrees st ->
  cachedImage st u = Return (img, st') ->
  cacheAgrees st' /\ snd st ⊆ snd st' /\ snd st' !! u = Some img
  /\ (forall v, is_Some (snd st' !! v) <-> is_Some (snd st !! v) \/ v = u)
  /\ doc_pages (fst st') = doc_pages (fst st)
  /\ doc_source (fst st') = doc_source (fst st).
Proof.
  destruct st as [doc cache], st' as [doc' cache'].
  unfold cacheAgrees. cbn [fst snd]. intros [Hsrc Hcnt] H.
  apply cachedImage_spec in H as
      [(Hhit & -> & ->) | (Hmiss & Himg & Hdec & -> & ->)]; cbn [fst snd].
  - split; [now split | ]. split; [done | ]. split; [assumption | ].
    split; [ | now split]. intros v.
    split; [now left | intros [Hv | ->]; [assumption | now exists img]].
  - split; [split | ]; cbn [fst snd].
    + intros v img'. rewrite lookup_insert.
      destruct (decide (u = v)) as [<- | Hne].
      * intros [= <-]. split; [assumption | ].
        split; [apply in_or_app; right; now left | assumption].
      * intros Hv. destruct (Hsrc v img' Hv) as (? & ? & ?).
        split; [assumption | ].
        split; [apply in_or_app; now left | assumption].
    + intros v. rewrite embedsOf_app, Hcnt, lookup_insert, Himg.
      destruct (decide (u = v)) as [<- | Hne].
      * now rewrite String.eqb_refl, Hmiss.
      * apply String.eqb_neq in Hne. rewrite Hne. lia.
    + split; [now apply insert_subseteq | ].
      split; [apply lookup_insert_eq | ].
      split; [ | split; reflexivity].
      intros v. rewrite lookup_insert.
      destruct (decide (u = v)) as [<- | Hne].
      * split; [now right | now exists img].
      * split; [now left | ]. intros [Hv | ->]; [assumption | congruence].
Qed.

Lemma placeOne_agrees st p st' :
  cacheAgrees st ->
  placeOne toPdf st p = Return st' ->
  exists k page img,
    arrayIndex (pageIndex p) = Some k
    /\ doc_pages (fst st) !! k = Some page
    /\ cacheAgrees st' /\ snd st ⊆ snd st'
    /\ snd st' !! imageDataUrl p = Some img
    /\ (forall v, is_Some (snd st' !! v)
                  <-> is_Some (snd st !! v) \/ v = imageDataUrl p)
    /\ doc_source (fst st') = doc_source (fst st)
    /\ map page_size (doc_pages (fst st')) = map page_size (doc_pages (fst st))
    /\ drawsOf (fst st') = Datatypes.S (drawsOf (fst st))
    /\ (forall j,
          doc_pages (fst st') !! j
          = (fun pg => if Nat.eqb k j
                       then {| page_size := page_size pg;
                               page_content :=
                                 page_content pg
                                 ++ [{| op_image := img;
                                        op_at := toPdf (page_size page)
                                                       (rect p) |}] |}
                       else pg) <$> doc_pages (fst st) !! j).
Proof.
  intros Hst H.
  apply placeOne_spec in H as (k & page & img & doc1 & Hpage & Hc & Hd).
  apply getPage_spec in Hpage as [Hk Hpage].
  destruct (cachedImage_agrees _ _ _ _ Hst Hc)
    as (Hagree & Hsub & Hlook & Hdom & Hpages & Hsource).
  destruct st' as [doc' cache']. cbn [fst snd] in *. subst doc'.
  exists k, page, img.
  split; [assumption | ]. split; [assumption | ].
  split; [exact Hagree | ]. split; [assumption | ]. split; [assumption | ].
  split; [assumption | ]. split; [assumption | ].
  split; [now rewrite sizes_drawImage, Hpages | ].
  split.
  - rewrite (drawsOf_drawImage _ _ _ _ page) by now rewrite Hpages.
    unfold drawsOf. now rewrite Hpages.
  - intros j. now rewrite pages_drawImage, Hpages.
Qed.

(** The loop, from any state in which cache and document agree. *)
Lemma forOf_placeOne_spec (ps : list Placement) :
  forall st st',
    cacheAgrees st ->
    forOf (placeOne toPdf) ps st = Return st' ->
    cacheAgrees st'
    /\ snd st ⊆ snd st'
    /\ (forall v, is_Some (snd st' !! v)
                  <-> is_Some (snd st !! v) \/ In v (map imageDataUrl ps))
    /\ doc_source (fst st') = doc_source (fst st)
    /\ map page_size (doc_pages (fst st')) = map page_size (doc_pages (fst st))
    /\ drawsOf (fst st') = (drawsOf (fst st) + length ps)%nat
    /\ (forall k page,
          doc_pages (fst st) !! k = Some page ->
          exists new,
            contentOf k (fst st') = page_content page ++ new
            /\ Forall2 (drawnFor toPdf (snd st') (page_size page)) new
                       (List.filter (targets k) ps)).
Proof.
  induction ps as [ | p ps IH]; intros st st' Hst Hrun.
  - injection Hrun as <-.
    split; [assumption | ]. split; [done | ].
    split; [intros v; cbn; tauto | ]. split; [reflexivity | ].
    split; [reflexivity | ]. split; [cbn; lia | ].
    intros k page Hk. exists []. unfold contentOf. rewrite Hk, app_nil_r.
    split; [reflexivity | constructor].
  - cbn [forOf] in Hrun. unfold bind in Hrun.
    destruct (placeOne toPdf st p) as [st1 | ] eqn:Hstep; [ | discriminate].
    destruct (placeOne_agrees _ _ _ Hst Hstep)
      as (k0 & page0 & img & Hk0 & Hpage0 & Hst1 & Hsub1 & Hlook1 & Hdom1
          & Hsrc1 & Hsz1 & Hdraw1 & Hpages1).
    destruct (IH _ _ Hst1 Hrun)
      as (Hst' & Hsub & Hdom & Hsrc & Hsz & Hdraw & Hcontent).
    split; [assumption | ]. split; [now transitivity (snd st1) | ].
    split.
    { intros v. rewrite Hdom, Hdom1. cbn [map In].
      split; [intros [[Hv | ->] | Hv]; auto | intros [Hv | [<- | Hv]]; auto]. }
    split; [congruence | ]. split; [congruence | ].
    split; [rewrite Hdraw, Hdraw1; cbn [length]; lia | ].
    intros k page Hk.
    specialize (Hpages1 k). rewrite Hk in Hpages1. cbn [fmap option_fmap option_map] in Hpages1.
    destruct (Hcontent k _ Hpages1) as (new & Hnew & Hall).
    cbn [List.filter]. unfold targets at 1. rewrite Hk0.
    destruct (Nat.eqb_spec k0 k) as [-> | Hne].
    + rewrite Hpage0 in Hk. injection Hk as ->.
      cbn [page_content page_size] in Hnew, Hall.
      eexists (_ :: new). rewrite Hnew, <- app_assoc. split; [reflexivity | ].
      constructor; [ | assumption].
      split; [reflexivity | ]. cbn [op_image].
      eapply lookup_weaken; eassumption.
    + exists new. split; assumption.
Qed.

Lemma placeOne_pages st p st' :
  placeOne toPdf st p = Return st' ->
  (exists k, arrayIndex (pageIndex p) = Some k
             /\ (k < length (doc_pages (fst st)))%nat)
  /\ length (doc_pages (fst st')) = length (doc_pages (fst st)).
Proof.
  intros (k & page & img & doc1 & Hpage & Hc & Hd)%placeOne_spec.
  apply getPage_spec in Hpage as [Hk Hpage].
  destruct st as [doc cache].
  assert (Hpages : doc_pages doc1 = doc_pages doc).
  { apply cachedImage_spec in Hc as [(_ & -> & _) | (_ & _ & _ & -> & _)];
      reflexivity. }
  cbn [fst] in *. split.
  - exists k. split; [assumption | ]. eapply lookup_lt_Some; eassumption.
  - rewrite Hd. unfold drawImage. cbn [doc_pages].
    now rewrite length_alter, Hpages.
Qed.

(** A loop that ran to its end found a page for every placement. *)
Lemma forOf_placeOne_pages (ps : list Placement) :
  forall st st',
    forOf (placeOne toPdf) ps st = Return st' ->
    forall p, In p ps ->
      exists k, arrayIndex (pageIndex p) = Some k
                /\ (k < length (doc_pages (fst st)))%nat.
Proof.
  induction ps as [ | q ps IH]; intros st st' Hrun p Hp; [destruct Hp | ].
  cbn [forOf] in Hrun. unfold bind in Hrun.
  destruct (placeOne toPdf st q) as [st1 | ] eqn:Hstep; [ | discriminate].
  apply placeOne_pages in Hstep as [Hq Hlen].
  destruct Hp as [-> | Hp]; [assumption | ].
  destruct (IH _ _ Hrun p Hp) as (k & Hk & Hlt).
  exists k. split; [assumption | ]. now rewrite <- Hlen.
Qed.

(** The loop goes through when every placement addresses a page of the
    document and every payload is cached or decodes as PNG or as JPEG. *)
Lemma forOf_placeOne_succeeds (ps : list Placement) :
  forall st,
    (forall p, In p ps ->
       exists k, arrayIndex (pageIndex p) = Some k
                 /\ (k < length (doc_pages (fst st)))%nat) ->
    (forall p, In p ps ->
       is_Some (snd st !! imageDataUrl p)
       \/ decodesAsPng (imageDataUrl p) = true
       \/ decodesAsJpg (imageDataUrl p) = true) ->
    exists st', forOf (placeOne toPdf) ps st = Return st'.
Proof.
  induction ps as [ | p ps IH]; intros [doc cache] Hpage Himg.
  - now eexists.
  - cbn [forOf fst snd] in *.
    assert (exists st1, placeOne toPdf (doc, cache) p = Return st1
                        /\ length (doc_pages (fst st1)) = length (doc_pages doc)
                        /\ cache ⊆ snd st1) as (st1 & Hstep & Hlen & Hsub).
    { destruct (Hpage p (or_introl eq_refl)) as (k & Hk & Hlt).
      apply lookup_lt_is_Some_2 in Hlt as [page Hp].
      unfold placeOne, getPage. cbn [fst]. rewrite Hk, Hp.
      unfold cachedImage.
      destruct (cache !! imageDataUrl p) as [img | ] eqn:Hc.
      - cbn. eexists. split; [reflexivity | ]. cbn.
        split; [apply length_alter | done].
      - destruct (Himg p (or_introl eq_refl)) as [[? Hs] | Hdec];
          [congruence | ].
        unfold embedPng, embedJpg.
        destruct (decodesAsPng (imageDataUrl p)) eqn:Hpng; cbn.
        + eexists. split; [reflexivity | ]. cbn.
          split; [apply length_alter | now apply insert_subseteq].
        + destruct Hdec as [Hdec | Hdec]; [discriminate | ]. rewrite Hdec.
          cbn. eexists. split; [reflexivity | ]. cbn.
          split; [apply length_alter | now apply insert_subseteq]. }
    unfold bind. rewrite Hstep. apply IH.
    + intros q Hq. destruct (Hpage q (or_intror Hq)) as (k & Hk & Hlt).
      exists k. split; [assumption | ]. now rewrite Hlen.
    + intros q Hq. destruct (Himg q (or_intror Hq)) as [[img Hs] | Hdec];
        [left | now right].
      exists img. eapply lookup_weaken; eassumption.
Qed.

Lemma load_spec source doc :
  load source = Return doc
  <-> exists sizes,
        parsePages source = Some sizes
        /\ doc = {| doc_source := source;
                    doc_pages := map (fun sz => {| page_size := sz;
                                                   page_content := [] |}) sizes;
                    doc_images := [] |}.
Proof.
  unfold load. destruct (parsePages source) as [sizes | ].
  - split; [intros [= <-]; now exists sizes | ].
    intros (sizes' & [= <-] & ->). reflexivity.
  - split; [discriminate | ]. now intros (sizes' & [=] & _).
Qed.

Lemma drawsOf_loaded source (sizes : list Size) :
  drawsOf {| doc_source := source;
             doc_pages := map (fun sz => {| page_size := sz;
                                            page_content := [] |}) sizes;
             doc_images := [] |} = 0%nat.
Proof.
  unfold drawsOf. cbn. induction sizes; cbn; auto.
Qed.

(** What the bytes handed to the download are: the serialization of the
    loaded document after one draw per placement, in the order of the
    placements on each page, with one embedded image per distinct payload. *)
Lemma signedBytes_spec file (ps : list Placement) out :
  signedBytes toPdf file ps = Return out ->
  exists sizes doc cache,
    builds toPdf file ps doc
    /\ parsePages (bytes file) = Some sizes
    /\ map page_size (doc_pages doc) = sizes
    /\ doc_source doc = bytes file
    /\ serialize doc = Some out
    /\ cacheAgrees (doc, cache)
    /\ (forall v, is_Some (cache !! v) <-> In v (map imageDataUrl ps))
    /\ (forall p, In p ps ->
          exists k, arrayIndex (pageIndex p) = Some k /\ (k < length sizes)%nat)
    /\ drawsOf doc = length ps
    /\ (forall k page,
          doc_pages doc !! k = Some page ->
          Forall2 (drawnFor toPdf cache (page_size page)) (page_content page)
                  (List.filter (targets k) ps)).
Proof.
  unfold signedBytes, bind.
  destruct (load (bytes file)) as [doc0 | ] eqn:Hload; [ | discriminate].
  destruct (forOf (placeOne toPdf) ps (doc0, ∅)) as [[doc cache] | ] eqn:Hrun;
    [ | discriminate].
  unfold save. destruct (serialize doc) as [out' | ] eqn:Hsave; [ | discriminate].
  intros [= ->].
  assert (Hbuilds : builds toPdf file ps doc) by now exists doc0, cache.
  pose proof (load_fresh _ _ Hload) as (Hsrc0 & _ & _ & Hagree0).
  apply load_spec in Hload as (sizes & Hparse & Hdoc0).
  destruct (forOf_placeOne_spec ps _ _ Hagree0 Hrun)
    as (Hagree & _ & Hdom & Hsrc & Hsz & Hdraw & Hcontent).
  cbn [fst snd] in *.
  exists sizes, doc, cache.
  split; [assumption | ]. split; [assumption | ].
  split. { rewrite Hsz, Hdoc0. cbn. rewrite map_map. cbn. apply map_id. }
  split; [congruence | ]. split; [assumption | ]. split; [assumption | ].
  split.
  { intros v. rewrite Hdom, lookup_empty. split; [ | now right].
    intros [[? Hv] | Hv]; [discriminate | assumption]. }
  split.
  { intros p Hp.
    destruct (forOf_placeOne_pages ps _ _ Hrun p Hp) as (k & Hk & Hlt).
    exists k. split; [assumption | ]. cbn in Hlt. rewrite Hdoc0 in Hlt.
    cbn in Hlt. now rewrite length_map in Hlt. }
  split. { rewrite Hdraw, Hdoc0, drawsOf_loaded. reflexivity. }
  intros k page Hk.
  assert (Hk0 : exists page0, doc_pages doc0 !! k = Some page0
                              /\ page_size page0 = page_size page
                              /\ page_content page0 = []).
  { assert (Hs : map page_size (doc_pages doc) !! k = Some (page_size page))
      by (rewrite list_lookup_fmap, Hk; reflexivity).
    rewrite Hsz, list_lookup_fmap in Hs.
    destruct (doc_pages doc0 !! k) as [page0 | ] eqn:H0; [ | discriminate].
    injection Hs as Hs. exists page0. split; [reflexivity | ].
    split; [assumption | ].
    rewrite Hdoc0 in H0. cbn in H0. rewrite list_lookup_fmap in H0.
    destruct (sizes !! k); [ | discriminate]. now injection H0 as <-. }
  destruct Hk0 as (page0 & H0 & Hsize & Hempty).
  destruct (Hcontent k page0 H0) as (new & Hnew & Hall).
  unfold contentOf in Hnew. rewrite Hk, Hempty in Hnew. cbn in Hnew.
  subst new. now rewrite <- Hsize.
Qed.

(** The same, read from the inputs: when does the export produce bytes. *)
Lemma signedBytes_succeeds file (ps : list Placement) sizes :
  parsePages (bytes file) = Some sizes ->
  (forall p, In p ps ->
     exists k, arrayIndex (pageIndex p) = Some k /\ (k < length sizes)%nat) ->
  (forall p, In p ps ->
     decodesAsPng (imageDataUrl p) = true
     \/ decodesAsJpg (imageDataUrl p) = true) ->
  (forall doc, doc_source doc = bytes file -> is_Some (serialize doc)) ->
  exists out, signedBytes toPdf file ps = Return out.
Proof.
  intros Hparse Hpages Himgs Hsave. unfold signedBytes, bind.
  destruct (load (bytes file)) as [doc0 | ] eqn:Hload.
  2:{ unfold load in Hload. now rewrite Hparse in Hload. }
  pose proof (load_fresh _ _ Hload) as (Hsrc0 & _ & _ & Hagree0).
  pose proof Hload as (sizes' & Hparse' & Hdoc0)%load_spec.
  assert (sizes' = sizes) as -> by congruence.
  destruct (forOf_placeOne_succeeds ps (doc0, ∅)) as [[doc cache] Hrun].
  { intros p Hp. destruct (Hpages p Hp) as (k & Hk & Hlt). exists k.
    split; [assumption | ]. cbn. rewrite Hdoc0. cbn.
    now rewrite length_map. }
  { intros p Hp. right. now apply Himgs. }
  rewrite Hrun.
  destruct (forOf_placeOne_spec ps _ _ Hagree0 Hrun)
    as (_ & _ & _ & Hsrc & _).
  cbn [fst snd] in *. unfold save.
  destruct (Hsave doc) as [out Hout]; [congruence | ].
  rewrite Hout. now exists out.
Qed.

Lemma drawn_rects cache sz (ops : list DrawOp) (qs : list Placement) :
  Forall2 (drawnFor toPdf cache sz) ops qs ->
  map op_at ops = map (fun p => toPdf sz (rect p)) qs.
Proof.
  induction 1 as [ | op q ops qs [Hat _] _ IH]; cbn; [reflexivity | ].
  now rewrite Hat, IH.
Qed.

Lemma drawn_handles cache sz (ops : list DrawOp) (qs : list Placement) :
  (forall u img, cache !! u = Some img -> image_source img = u) ->
  Forall2 (drawnFor toPdf cache sz) ops qs ->
  map (fun op => image_source (op_image op)) ops = map imageDataUrl qs
  /\ forall op, In op ops ->
       cache !! image_source (op_image op) = Some (op_image op).
Proof.
  intros Hsrc. induction 1 as [ | op q ops qs [_ Hc] _ [IH1 IH2]]; cbn.
  - split; [reflexivity | intros ? []].
  - pose proof (Hsrc _ _ Hc) as Hq. split; [now rewrite Hq, IH1 | ].
    intros op' [<- | Hin]; [now rewrite Hq | now apply IH2].
Qed.

(** The loop reads a placement through its page index, rect and payload
    only: the [id] plays no part. *)
Lemma placeOne_ignores_id st (p q : Placement) :
  pageIndex p = pageIndex q -> rect p = rect q ->
  imageDataUrl p = imageDataUrl q ->
  placeOne toPdf st p = placeOne toPdf st q.
Proof.
  intros Hi Hr Hu. unfold placeOne. now rewrite Hi, Hr, Hu.
Qed.

End Loop.

End ExportProps.

(* ===================================================================== *)
(** ** The export, end to end                                             *)
(* ===================================================================== *)

Module ExportClaims.
Import JsNum JsNumFacts AppStore PdfExport Vocabulary Samples ExportProps.
Local Open Scope Q_scope.
Local Open Scope string_scope.
Local Open Scope list_scope.

Example export_contract :
  @Percent.exportSignedPdf demoLib contract [initials1; initials2] idle
  = (Return tt, signedContract).
Proof. vm_compute. reflexivity. Qed.

Section WithPdfLib.
Context {lib : PdfLib}.

Lemma exportSignedPdfOf_inv (c : Copy) file (ps : list Placement) b b' :
  exportSignedPdfOf c file ps b = (Return tt, b') ->
  exists out, signedBytes (toPdfOf c) file ps = Return out
              /\ b' = triggerDownload (name file) out b.
Proof.
  destruct c; cbn [exportSignedPdfOf toPdfOf];
    unfold Percent.exportSignedPdf, Canvas.exportSignedPdf;
    (destruct (signedBytes _ file ps) as [out | ]; [ | discriminate]);
    intros [= <-]; now exists out.
Qed.

Lemma exportSignedPdf_inv file (ps : list Placement) b b' :
  Percent.exportSignedPdf file ps b = (Return tt, b') ->
  exists out, signedBytes Percent.toPdf file ps = Return out
              /\ b' = triggerDownload (name file) out b.
Proof. apply (exportSignedPdfOf_inv PercentCopy). Qed.

(** C1. When the export (the copy with percentage coordinates) goes
    through, the bytes it downloads are the serialization of the document
    its loop built; the pages of that document have the native sizes of the
    source, and on every page, of size pageWidth x pageHeight, the draws are
    those of the placements addressing that page, in order, at
    x = (rect.x/100) * pageWidth,
    y = pageHeight - ((rect.y + rect.h)/100) * pageHeight,
    width = (rect.w/100) * pageWidth, height = (rect.h/100) * pageHeight.
    For the rect (10, 20, 15, 5) on a 612 x 792 page this is
    (61.2, 594, 91.8, 39.6), exactly over the rationals and within 2^-30 in
    binary64. *)
Theorem export_draws_native_rect :
  (forall file (ps : list Placement) b b',
      Percent.exportSignedPdf file ps b = (Return tt, b') ->
      exists sizes doc out,
        builds Percent.toPdf file ps doc
        /\ parsePages (bytes file) = Some sizes
        /\ map page_size (doc_pages doc) = sizes
        /\ serialize doc = Some out
        /\ b' = triggerDownload (name file) out b
        /\ forall k page,
            doc_pages doc !! k = Some page ->
            let pageWidth := width (page_size page) in
            let pageHeight := height (page_size page) in
            map op_at (page_content page)
            = map (fun p =>
                     {| opt_x := (x (rect p) / 100) * pageWidth;
                        opt_y := pageHeight
                                 - ((y (rect p) + h (rect p)) / 100) * pageHeight;
                        opt_width := (w (rect p) / 100) * pageWidth;
                        opt_height := (h (rect p) / 100) * pageHeight |})
                  (List.filter (targets k) ps))
  /\ (let o := Percent.toPdf letter exampleRect in
      opt_x o == 61.2 /\ opt_y o == 594.0 /\ opt_width o == 91.8
      /\ opt_height o == 39.6)
  /\ (Binary64.close (Binary64.pdfX 10 612) 61.2 = true
      /\ Binary64.close (Binary64.pdfY 20 5 792) 594.0 = true
      /\ Binary64.close (Binary64.pdfW 15 612) 91.8 = true
      /\ Binary64.close (Binary64.pdfH 5 792) 39.6 = true)%float.
Proof.
  split; [ | split].
  - intros file ps b b' (out & Hout & ->)%exportSignedPdf_inv.
    apply signedBytes_spec in Hout
      as (sizes & doc & cache & Hb & Hparse & Hsz & _ & Hsave & _ & _ & _ & _
          & Hpg).
    exists sizes, doc, out. repeat (split; [assumption || reflexivity | ]).
    intros k page Hk. cbn zeta.
    now rewrite (drawn_rects _ _ _ _ _ (Hpg k page Hk)).
  - cbn. repeat split.
  - repeat split.
Qed.

(** A document in which every payload but [u] has no image holds as many
    images as it holds images of [u]. *)
Lemma embedsOf_all u doc :
  (forall v, v <> u -> embedsOf v doc = 0%nat) ->
  length (doc_images doc) = embedsOf u doc.
Proof.
  unfold embedsOf. induction (doc_images doc) as [ | img imgs IH];
    intros Hothers; [reflexivity | ].
  assert (Himg : image_source img = u).
  { destruct (string_dec (image_source img) u) as [ | Hne]; [assumption | ].
    specialize (Hothers _ Hne). cbn in Hothers.
    rewrite String.eqb_refl in Hothers. discriminate. }
  cbn. rewrite Himg, String.eqb_refl. cbn. f_equal. apply IH.
  intros v Hv. specialize (Hothers v Hv). cbn in Hothers.
  rewrite Himg in Hothers. apply not_eq_sym, String.eqb_neq in Hv.
  now rewrite Hv in Hothers.
Qed.

(** C5. When the export goes through (either copy), the document it
    serializes holds exactly one embedded image for each payload that occurs
    among the placements (and none for any other payload), one draw per
    placement, and every draw of a placement uses the one image of its
    payload.  For two placements with the same payload, on whatever pages:
    one image, two draws, one shared handle. *)
Theorem export_embeds_each_payload_once (c : Copy) file (ps : list Placement)
    b b' :
  exportSignedPdfOf c file ps b = (Return tt, b') ->
  exists doc out,
    builds (toPdfOf c) file ps doc
    /\ serialize doc = Some out
    /\ b' = triggerDownload (name file) out b
    /\ (forall u, In u (map imageDataUrl ps) -> embedsOf u doc = 1%nat)
    /\ (forall u, ~ In u (map imageDataUrl ps) -> embedsOf u doc = 0%nat)
    /\ drawsOf doc = length ps
    /\ (forall k page,
          doc_pages doc !! k = Some page ->
          map (fun op => image_source (op_image op)) (page_content page)
          = map imageDataUrl (List.filter (targets k) ps)
          /\ forall op, In op (page_content page) ->
               In (op_image op) (doc_images doc))
    /\ (forall k1 k2 op1 op2,
          In op1 (contentOf k1 doc) -> In op2 (contentOf k2 doc) ->
          image_source (op_image op1) = image_source (op_image op2) ->
          op_image op1 = op_image op2)
    /\ (forall p q,
          ps = [p; q] -> imageDataUrl p = imageDataUrl q ->
          length (doc_images doc) = 1%nat /\ drawsOf doc = 2%nat).
Proof.
  intros (out & Hout & ->)%exportSignedPdfOf_inv.
  apply signedBytes_spec in Hout
    as (sizes & doc & cache & Hb & _ & _ & _ & Hsave & [Hsrc Hcnt] & Hdom & _
        & Hdraws & Hpg).
  cbn [fst snd] in *.
  assert (Hsrc' : forall u img, cache !! u = Some img -> image_source img = u)
    by (intros u img Hc; now destruct (Hsrc u img Hc)).
  assert (Hone : forall u, In u (map imageDataUrl ps) -> embedsOf u doc = 1%nat).
  { intros u [img Hu]%Hdom. now rewrite Hcnt, Hu. }
  assert (Hnone : forall u, ~ In u (map imageDataUrl ps) ->
                            embedsOf u doc = 0%nat).
  { intros u Hu. rewrite Hcnt. destruct (cache !! u) eqn:Hc; [ | reflexivity].
    exfalso. apply Hu, Hdom. rewrite Hc. now eexists. }
  assert (Hops : forall k op, In op (contentOf k doc) ->
                   cache !! image_source (op_image op) = Some (op_image op)).
  { intros k op. unfold contentOf.
    destruct (doc_pages doc !! k) as [page | ] eqn:Hk; [ | intros []].
    now apply (drawn_handles _ _ _ _ _ Hsrc' (Hpg k page Hk)). }
  exists doc, out.
  split; [assumption | ]. split; [assumption | ]. split; [reflexivity | ].
  split; [assumption | ]. split; [assumption | ]. split; [assumption | ].
  split; [ | split].
  - intros k page Hk.
    destruct (drawn_handles _ _ _ _ _ Hsrc' (Hpg k page Hk)) as [Hmap Hin].
    split; [assumption | ]. intros op Hop.
    now destruct (Hsrc _ _ (Hin op Hop)) as (_ & ? & _).
  - intros k1 k2 op1 op2 H1%Hops H2%Hops Heq. rewrite Heq in H1. congruence.
  - intros p q -> Hpq. split; [ | assumption].
    rewrite (embedsOf_all (imageDataUrl p)).
    + apply Hone. now left.
    + intros v Hv. apply Hnone. cbn. rewrite <- Hpq. intros [ | [ | []]]; congruence.
Qed.

(** C6. The export (either copy) either throws and leaves the browser as it
    found it (no object URL, no download), or returns after exactly one
    download, whose body is the serialization of the source document with
    every placement drawn: the source parsed, every placement addressed a
    page, every payload decoded as PNG or JPEG, and [save] returned.  The
    [File] is an argument that no step writes to, so a failed export can be
    run again from the state it left, with the same outcome. *)
Theorem export_is_all_or_nothing (c : Copy) file (ps : list Placement) b :
  (forall e b', exportSignedPdfOf c file ps b = (Throw e, b') ->
     b' = b
     /\ (c = PercentCopy -> e = ExportFailed)
     /\ exportSignedPdfOf c file ps b' = (Throw e, b'))
  /\ (forall u b', exportSignedPdfOf c file ps b = (Return u, b') ->
       exists sizes doc out,
         b' = {| downloads := downloads b
                              ++ [{| download_name := downloadName (name file);
                                     download_body := out |}];
                 objectUrls := Nat.succ (objectUrls b) |}
         /\ builds (toPdfOf c) file ps doc
         /\ parsePages (bytes file) = Some sizes
         /\ doc_source doc = bytes file
         /\ serialize doc = Some out
         /\ drawsOf doc = length ps
         /\ (forall p, In p ps ->
               exists k, arrayIndex (pageIndex p) = Some k
                         /\ (k < length sizes)%nat)
         /\ (forall p, In p ps ->
               decodesAsPng (imageDataUrl p) = true
               \/ decodesAsJpg (imageDataUrl p) = true)).
Proof.
  assert (Hshape :
    exportSignedPdfOf c file ps b
    = match signedBytes (toPdfOf c) file ps with
      | Return out => (Return tt, triggerDownload (name file) out b)
      | Throw e => (Throw (match c with
                           | PercentCopy => ExportFailed
                           | CanvasCopy => e
                           end), b)
      end) by (destruct c; reflexivity).
  rewrite Hshape.
  destruct (signedBytes (toPdfOf c) file ps) as [out | e0] eqn:Hout.
  - split; [discriminate | ]. intros u b' [= <- <-].
    apply signedBytes_spec in Hout
      as (sizes & doc & cache & Hb & Hparse & _ & Hsrc & Hsave & [Hc _] & Hdom
          & Hpages & Hdraws & _).
    exists sizes, doc, out. repeat (split; [assumption || reflexivity | ]).
    intros p Hp. cbn [fst snd] in Hc.
    destruct (proj2 (Hdom (imageDataUrl p))) as [img Himg];
      [now apply in_map | ].
    now destruct (Hc _ _ Himg) as (_ & _ & ?).
  - split; [ | discriminate]. intros e b' [= <- <-].
    split; [reflexivity | ]. split; [now intros -> | ].
    destruct c; cbn [exportSignedPdfOf];
      unfold Percent.exportSignedPdf, Canvas.exportSignedPdf;
      cbn [toPdfOf] in Hout; now rewrite Hout.
Qed.


(** The bytes do not depend on the [id]s of the placements (the values
    [crypto.randomUUID()] returned when they were added). *)
Lemma signedBytes_ignores_ids toPdf file (ps qs : list Placement) :
  map sansId ps = map sansId qs ->
  signedBytes toPdf file ps = signedBytes toPdf file qs.
Proof.
  intros Hsame. unfold signedBytes.
  assert (Hloop : forall st, forOf (placeOne toPdf) ps st
                             = forOf (placeOne toPdf) qs st).
  { revert qs Hsame. induction ps as [ | p ps IH]; intros [ | q qs] Hsame st;
      try discriminate; [reflexivity | ].
    injection Hsame as Hi Hr Hu Hrest. cbn [forOf].
    rewrite (placeOne_ignores_id toPdf st p q Hi Hr Hu).
    destruct (placeOne toPdf st q); cbn; [now apply IH | reflexivity]. }
  destruct (load (bytes file)) as [doc | e]; cbn [bind]; [ | reflexivity].
  now rewrite Hloop.
Qed.

(** [exportAll] reports a failed export in a dialog and starts no download;
    the store itself is only read. *)
Lemma exportAll_failure (s : S) b file :
  pdfFile s = Some file -> placements s <> [] ->
  (forall out, signedBytes Percent.toPdf file (placements s) <> Return out) ->
  exportAll s b = (["Failed to export PDF. Please try again."], b).
Proof.
  intros Hfile Hps Hfail. unfold exportAll, Percent.exportSignedPdf.
  rewrite Hfile. destruct (placements s) as [ | p ps]; [congruence | ].
  destruct (signedBytes Percent.toPdf file (p :: ps)) as [out | e];
    [now destruct (Hfail out) | reflexivity].
Qed.

End WithPdfLib.

(** The older copy draws the same rect somewhere else: it takes the four
    numbers for canvas pixels at 1.5x and never looks at the page width. *)
Lemma canvas_export_draws_elsewhere :
  let o := Canvas.toPdf letter exampleRect in
  opt_x o == 20 / 3 /\ opt_y o == 792 - 50 / 3 /\ opt_width o == 10
  /\ opt_height o == 10 / 3
  /\ ~ opt_x o == opt_x (Percent.toPdf letter exampleRect).
Proof.
  cbn. repeat split. discriminate.
Qed.

(** *** The sample export *)

Lemma export_draws_native_rect_witness :
  exists doc,
    @serialize demoLib doc = Some [Byte.x25; Byte.x50; Byte.x2a; Byte.x2a]
    /\ map page_size (doc_pages doc) = [letter; letter]
    /\ forall k page,
         doc_pages doc !! k = Some page ->
         map op_at (page_content page)
         = map (fun p => Percent.toPdf (page_size page) (rect p))
               (List.filter (targets k) [initials1; initials2]).
Proof.
  assert (Hrun : @Percent.exportSignedPdf demoLib contract
                   [initials1; initials2] idle = (Return tt, signedContract))
    by (vm_compute; reflexivity).
  destruct (proj1 (@export_draws_native_rect demoLib) _ _ _ _ Hrun)
    as (sizes & doc & out & _ & Hparse & Hsz & Hsave & Hb & Hpages).
  injection Hb as Hout. injection Hparse as <-.
  exists doc. rewrite Hsave, Hout. repeat split; [exact Hsz | exact Hpages].
Defined.

Lemma export_embeds_each_payload_once_witness :
  exists doc,
    @serialize demoLib doc = Some [Byte.x25; Byte.x50; Byte.x2a; Byte.x2a]
    /\ embedsOf pngDot doc = 1%nat
    /\ length (doc_images doc) = 1%nat
    /\ drawsOf doc = 2%nat.
Proof.
  assert (Hrun : @Percent.exportSignedPdf demoLib contract
                   [initials1; initials2] idle = (Return tt, signedContract))
    by (vm_compute; reflexivity).
  destruct (@export_embeds_each_payload_once demoLib PercentCopy _ _ _ _ Hrun)
    as (doc & out & _ & Hsave & Hb & Hone & _ & _ & _ & _ & Htwo).
  injection Hb as Hout.
  destruct (Htwo initials1 initials2 eq_refl eq_refl) as [Himgs Hdraws].
  exists doc. rewrite Hsave, Hout. repeat split; try assumption.
  apply Hone. now left.
Defined.

(** Four ways to fail, each leaving a browser with one earlier download as
    it was: a source that does not parse, a placement on a page the document
    does not have, a payload that is neither PNG nor JPEG (after a first
    placement was drawn), and a document [save] refuses. *)
Example export_fails_on_corrupt_source :
  @Percent.exportSignedPdf demoLib {| name := "empty.pdf"; bytes := [] |}
     [initials1] busy = (Throw ExportFailed, busy).
Proof. vm_compute. reflexivity. Qed.

Example export_fails_on_absent_page :
  @Percent.exportSignedPdf demoLib contract [initials1; initials3] busy
  = (Throw ExportFailed, busy).
Proof. vm_compute. reflexivity. Qed.

Example export_fails_on_webp :
  @Percent.exportSignedPdf demoLib contract [initials1; stamp] busy
  = (Throw ExportFailed, busy).
Proof. vm_compute. reflexivity. Qed.

Example export_fails_on_save :
  @Percent.exportSignedPdf demoLib contract
     [initials1; initials2; initials1; initials2] busy
  = (Throw ExportFailed, busy).
Proof. vm_compute. reflexivity. Qed.

Lemma export_is_all_or_nothing_witness :
  (busy = busy
   /\ (PercentCopy = PercentCopy -> ExportFailed = ExportFailed)
   /\ @Percent.exportSignedPdf demoLib contract [initials1; stamp] busy
      = (Throw ExportFailed, busy))
  /\ exists doc,
       @serialize demoLib doc = Some [Byte.x25; Byte.x50; Byte.x2a; Byte.x2a]
       /\ doc_source doc = bytes contract
       /\ drawsOf doc = 2%nat.
Proof.
  split.
  - apply (proj1 (@export_is_all_or_nothing demoLib PercentCopy contract
                    [initials1; stamp] busy)).
    vm_compute. reflexivity.
  - assert (Hrun : @exportSignedPdfOf demoLib CanvasCopy contract
                     [initials1; initials2] idle = (Return tt, signedContract))
      by (vm_compute; reflexivity).
    destruct (proj2 (@export_is_all_or_nothing demoLib CanvasCopy contract
                       [initials1; initials2] idle) _ _ Hrun)
      as (sizes & doc & out & Hb & _ & _ & Hsrc & Hsave & Hdraws & _).
    injection Hb as Hout. exists doc. rewrite Hsave, <- Hout.
    repeat split; assumption.
Defined.


Example export_twice_same_bytes :
  produced (@Percent.exportSignedPdf demoLib contract
              [initials1; initials2] idle)
  = Some [Byte.x25; Byte.x50; Byte.x2a; Byte.x2a]
  /\ produced (@Percent.exportSignedPdf demoLib contractCopy
                 [initials1; initials2] busy)
     = Some [Byte.x25; Byte.x50; Byte.x2a; Byte.x2a].
Proof. split; vm_compute; reflexivity. Qed.

End ExportClaims.

(* ===================================================================== *)
(** ** Strings                                                            *)
(* ===================================================================== *)

Module StringFacts.
Import AppStore PdfExport.
Local Open Scope string_scope.
Local Open Scope list_scope.

Lemma allChars_impl (P Q : ascii -> bool) (s : string) :
  (forall c, P c = true -> Q c = true) ->
  allChars P s = true -> allChars Q s = true.
Proof.
  intros HPQ. induction s as [ | c s IH]; cbn; [reflexivity | ].
  intros [Hc Hs]%andb_true_iff. now rewrite (HPQ c Hc), IH.
Qed.

Lemma allChars_and (P Q : ascii -> bool) (s : string) :
  allChars (fun c => P c && Q c) s = true
  <-> allChars P s = true /\ allChars Q s = true.
Proof.
  induction s as [ | c s IH]; cbn; [tauto | ].
  rewrite !andb_true_iff, IH. tauto.
Qed.

Lemma allChars_substring (P : ascii -> bool) (n : nat) (s : string) :
  allChars P s = true -> allChars P (String.substring 0 n s) = true.
Proof.
  revert s. induction n as [ | n IH]; intros [ | c s]; cbn; try reflexivity.
  intros [Hc Hs]%andb_true_iff. now rewrite Hc, IH.
Qed.

Lemma length_substring_le (n : nat) (s : string) :
  (String.length (String.substring 0 n s) <= n)%nat.
Proof.
  revert s. induction n as [ | n IH]; intros [ | c s]; cbn; try lia.
  specialize (IH s). lia.
Qed.

Lemma substring_short (n : nat) (s : string) :
  (String.length s <= n)%nat -> String.substring 0 n s = s.
Proof.
  revert s. induction n as [ | n IH]; intros [ | c s]; cbn; try reflexivity.
  - lia.
  - intros H. f_equal. apply IH. lia.
Qed.









Lemma list_ascii_of_string_app (s t : string) :
  list_ascii_of_string (s ++ t)%string
  = list_ascii_of_string s ++ list_ascii_of_string t.
Proof.
  induction s as [ | c s IH]; [reflexivity | ].
  simpl. f_equal. exact IH.
Qed.

Lemma length_append (s t : string) :
  String.length (s ++ t)%string = (String.length s + String.length t)%nat.
Proof.
  induction s as [ | c s IH]; [reflexivity | ].
  simpl. f_equal. exact IH.
Qed.

Lemma substring_append (s t : string) :
  String.substring 0 (String.length s) (s ++ t)%string = s.
Proof.
  induction s as [ | c s IH]; [now destruct t | ].
  simpl. f_equal. exact IH.
Qed.

End StringFacts.

(* ===================================================================== *)
(** ** More on the store                                                  *)
(* ===================================================================== *)

Module StoreMore.
Import JsNum JsNumFacts AppStore Session Vocabulary Samples MoreVocabulary
       MoreSamples StoreProps.
Local Open Scope Q_scope.
Local Open Scope string_scope.
Local Open Scope list_scope.

Lemma stripPrefix_spec (pre s r : string) :
  stripPrefix pre s = Some r <-> s = (pre ++ r)%string.
Proof.
  revert s. induction pre as [ | a pre IH]; intros s; cbn.
  - split; [now intros [= ->] | now intros ->].
  - destruct s as [ | b s]; [split; discriminate | ].
    destruct (Ascii.eqb_spec a b) as [<- | Hne].
    + rewrite IH. split; [now intros -> | now intros [= ->]].
    + split; [discriminate | ]. intros [= Hab _]. congruence.
Qed.

Lemma append_assoc3 (a b c : string) :
  ((a ++ b) ++ c = a ++ (b ++ c))%string.
Proof.
  induction a as [ | ch a IH]; [reflexivity | ].
  change (String ch ((a ++ b) ++ c) = String ch (a ++ (b ++ c)))%string.
  now rewrite IH.
Qed.

(** X1. The store's [isValidDataURL] accepts exactly the strings
    [data:image/<fmt>;base64,<body>] with [fmt] one of png, jpeg, jpg, webp
    and [body] a non-empty word over the base64 alphabet; nothing may come
    before or after. *)
Theorem isValidDataURL_shape (u : string) :
  isValidDataURL u = true
  <-> exists fmt body,
        In fmt ["png"; "jpeg"; "jpg"; "webp"] /\ base64Body body
        /\ u = ("data:image/" ++ fmt ++ ";base64," ++ body)%string.
Proof.
  unfold isValidDataURL, base64Body. split.
  - destruct (stripPrefix "data:image/" u) as [rest | ] eqn:Hrest;
      [ | discriminate].
    apply stripPrefix_spec in Hrest. rewrite existsb_exists.
    intros (fmt & Hfmt & Hm). unfold matchesAfter in Hm.
    destruct (stripPrefix (fmt ++ ";base64,") rest) as [[ | c body] | ] eqn:Hb;
      try discriminate.
    apply stripPrefix_spec in Hb. exists fmt, (String c body).
    split; [assumption | ]. split; [split; [discriminate | exact Hm] | ].
    rewrite Hrest, Hb. f_equal. apply append_assoc3.
  - intros (fmt & body & Hfmt & [Hne Hall] & ->).
    assert (Hpre : stripPrefix "data:image/"
                     ("data:image/" ++ fmt ++ ";base64," ++ body)
                   = Some (fmt ++ ";base64," ++ body)%string)
      by now apply stripPrefix_spec.
    rewrite Hpre. apply existsb_exists. exists fmt. split; [assumption | ].
    unfold matchesAfter.
    assert (Hb : stripPrefix (fmt ++ ";base64,")
                   (fmt ++ ";base64," ++ body) = Some body).
    { apply stripPrefix_spec. symmetry. apply append_assoc3. }
    rewrite Hb. destruct body as [ | c body]; [congruence | exact Hall].
Qed.

Lemma act_keeps_storeOk (a : Action) (s : S) :
  storeOk s -> guardedUpdate a -> storeOk (act a s).
Proof.
  intros [Hps Hsig] Hguard.
  destruct a as [f | | cs sz | sz | d | uuid i r url | id0 r | id0 | ];
    cbn [act].
  - split; [constructor | exact Hsig].
  - split; [constructor | exact I].
  - now split.
  - now split.
  - unfold setCurrentSignature.
    destruct d as [[ | c u] | ]; cbn; try (split; [assumption | exact I]).
    destruct (isValidDataURL (String c u)) eqn:Hu; cbn; now split.
  - unfold addPlacement.
    destruct (isValidDataURL url) eqn:Hu; cbn; [ | now split].
    destruct (invalidPageIndex i) eqn:Hi; [now split | ].
    destruct (invalidRect r) eqn:Hr; [now split | ].
    split; [ | exact Hsig]. cbn. apply List.Forall_app. split; [assumption | ].
    constructor; [ | constructor]. split; [exact Hu | ]. cbn. split.
    + rewrite <- invalidPageIndex_spec. congruence.
    + rewrite <- invalidRect_spec. congruence.
  - split; [ | exact Hsig]. cbn. apply List.Forall_forall.
    intros q (p & <- & Hp)%in_map_iff.
    rewrite List.Forall_forall in Hps. specialize (Hps p Hp).
    destruct (String.eqb (id p) id0); [ | assumption].
    destruct Hps as (Hu & Hi & _). now split.
  - split; [ | exact Hsig]. cbn. apply List.Forall_forall.
    intros q [Hq _]%filter_In. rewrite List.Forall_forall in Hps. auto.
  - split; [constructor | exact I].
Qed.

(** X2. The store stays well-formed.  Starting from a store in which every
    placement would pass the guards of [addPlacement] and the current
    signature is absent, empty or a valid data URL, any sequence of store
    actions keeps it so, provided the rects handed to [updatePlacement]
    would themselves pass the rect guard ([updatePlacement] does not
    check). *)
Theorem session_keeps_store_wellformed (acts : list Action) (s : S) :
  storeOk s -> Forall guardedUpdate acts -> storeOk (session acts s).
Proof.
  unfold session. revert s.
  induction acts as [ | a acts IH]; intros s Hs Hall; [exact Hs | ].
  inversion Hall; subst. cbn. apply IH; [ | assumption].
  now apply act_keeps_storeOk.
Qed.

Lemma initial_storeOk : storeOk initial.
Proof. split; [constructor | exact I]. Qed.

Lemma session_keeps_store_wellformed_witness :
  storeOk (session shortSession initial).
Proof.
  apply (session_keeps_store_wellformed shortSession initial).
  - exact initial_storeOk.
  - unfold shortSession.
    repeat (constructor; [cbn; try exact I | ]); [ | constructor].
    unfold fieldOutOfRange, Qle, Qlt. cbn. lia.
Defined.

Lemma ids_addPlacement uuid i r url (s : S) :
  ids (addPlacement uuid i r url s) = ids s
  \/ ids (addPlacement uuid i r url s) = ids s ++ [uuid].
Proof.
  unfold addPlacement, ids.
  destruct (isValidDataURL url); cbn; [ | now left].
  destruct (invalidPageIndex i); [now left | ].
  destruct (invalidRect r); [now left | ].
  right. cbn. now rewrite map_app.
Qed.

Lemma ids_updatePlacement id0 r (s : S) :
  ids (updatePlacement id0 r s) = ids s.
Proof.
  unfold updatePlacement, ids. cbn. rewrite map_map. apply map_ext.
  intros p. now destruct (String.eqb (id p) id0).
Qed.

Lemma NoDup_filter_map (f : Placement -> bool) (l : list Placement) :
  NoDup (map id l) -> NoDup (map id (List.filter f l)).
Proof.
  induction l as [ | p l IH]; cbn; [auto | ].
  intros [Hnotin Hrest]%NoDup_cons.
  destruct (f p); cbn; [ | auto]. apply NoDup_cons. split; [ | auto].
  intros (q & Hq & [Hin _]%filter_In)%list_elem_of_In%in_map_iff.
  apply Hnotin, list_elem_of_In, in_map_iff. now exists q.
Qed.

(** X3. Ids stay unique.  If no two stored placements share an id, the same
    holds after any store action, provided an [addPlacement] is handed an
    id that is not in use (what [crypto.randomUUID()] is relied on for). *)
Theorem ids_stay_unique (a : Action) (s : S) :
  NoDup (ids s) -> freshAdd a s -> NoDup (ids (act a s)).
Proof.
  intros Hnd Hfresh.
  destruct a as [f | | cs sz | sz | d | uuid i r url | id0 r | id0 | ];
    cbn [act]; try (apply NoDup_nil_2); try exact Hnd.
  - unfold setCurrentSignature, ids.
    now destruct (_ && _).
  - destruct (ids_addPlacement uuid i r url s) as [-> | ->]; [assumption | ].
    apply NoDup_app. split; [assumption | ].
    split; [ | apply NoDup_singleton].
    intros x Hx%list_elem_of_In ->%list_elem_of_singleton.
    now apply Hfresh.
  - now rewrite ids_updatePlacement.
  - unfold removePlacement, ids. cbn. now apply NoDup_filter_map.
Qed.

Lemma oneSigned_ids : NoDup (ids oneSigned).
Proof. apply NoDup_singleton. Qed.

Lemma twoSigned_ids : NoDup (ids twoSigned).
Proof.
  apply NoDup_cons. split; [ | apply NoDup_singleton].
  intros [= H]%list_elem_of_singleton.
Qed.

Lemma ids_stay_unique_witness :
  NoDup (ids (act (AddPlacement "u2" 1 wideRect pngDot) oneSigned)).
Proof.
  apply (ids_stay_unique (AddPlacement "u2" 1 wideRect pngDot) oneSigned).
  - exact oneSigned_ids.
  - intros [H | []]. discriminate.
Defined.

Lemma removePlacement_fresh id0 (l : list Placement) :
  ~ In id0 (map id l) ->
  List.filter (fun p => negb (String.eqb (id p) id0)) l = l.
Proof.
  induction l as [ | p l IH]; cbn; [reflexivity | ]. intros Hnot.
  destruct (String.eqb_spec (id p) id0) as [<- | Hne]; cbn.
  - exfalso. apply Hnot. now left.
  - f_equal. apply IH. intros Hin. apply Hnot. now right.
Qed.

(** X4. [removePlacement] removes exactly the placement meant.  When ids are
    unique and placement [p] is stored, removing [id p] cuts [p] out of the
    list and leaves everything before and after it as it was, in order; the
    other fields of the state stay as they were. *)
Theorem removePlacement_cuts_one_out (s : S) (before after : list Placement)
    (p : Placement) :
  NoDup (ids s) ->
  placements s = before ++ p :: after ->
  removePlacement (id p) s = withPlacements (before ++ after) s.
Proof.
  unfold removePlacement, ids. intros Hnd Hs. f_equal. rewrite Hs in *.
  rewrite map_app in Hnd. cbn in Hnd.
  apply NoDup_app in Hnd as (_ & Hdisj & Hnd).
  apply NoDup_cons in Hnd as [Hnotin _].
  rewrite List.filter_app. cbn. rewrite String.eqb_refl. cbn.
  rewrite !removePlacement_fresh; [reflexivity | | ].
  - intros Hin. apply Hnotin. now apply list_elem_of_In.
  - intros Hin. apply (Hdisj (id p)); [now apply list_elem_of_In | ].
    apply list_elem_of_here.
Qed.

Lemma removePlacement_cuts_one_out_witness :
  removePlacement "u1" twoSigned
  = withPlacements
      [{| id := "u2"; pageIndex := 1; rect := wideRect;
          imageDataUrl := jpegUrl |}] twoSigned.
Proof.
  apply (removePlacement_cuts_one_out twoSigned []
           [{| id := "u2"; pageIndex := 1; rect := wideRect;
               imageDataUrl := jpegUrl |}]
           {| id := "u1"; pageIndex := 0; rect := smallRect;
              imageDataUrl := pngDot |}).
  - exact twoSigned_ids.
  - reflexivity.
Defined.

(** X5. Adding and then removing is a round trip.  For an id that is not in
    use, [removePlacement uuid] after [addPlacement uuid ...] gives back the
    state before the two calls, whether the add was accepted or refused. *)
Theorem add_then_remove_restores uuid i r url (s : S) :
  ~ In uuid (ids s) ->
  removePlacement uuid (addPlacement uuid i r url s) = s.
Proof.
  intros Hfresh. unfold addPlacement, removePlacement.
  assert (Hnoop : withPlacements
                    (List.filter (fun p => negb (String.eqb (id p) uuid))
                                 (placements s)) s = s).
  { rewrite removePlacement_fresh by exact Hfresh.
    apply withPlacements_same. }
  destruct (isValidDataURL url); cbn [negb]; [ | exact Hnoop].
  destruct (invalidPageIndex i); [exact Hnoop | ].
  destruct (invalidRect r); [exact Hnoop | ].
  cbn. rewrite List.filter_app. cbn. rewrite String.eqb_refl. cbn.
  rewrite app_nil_r, removePlacement_fresh by exact Hfresh.
  now destruct s.
Qed.

Lemma add_then_remove_restores_witness :
  removePlacement "u2" (addPlacement "u2" 1 wideRect pngDot oneSigned)
  = oneSigned.
Proof.
  apply (add_then_remove_restores "u2" 1 wideRect pngDot oneSigned).
  intros [H | []]. discriminate.
Defined.

(** A second update of the same id overrides the first. *)
Lemma updatePlacement_twice id1 r1 r2 (s : S) :
  updatePlacement id1 r2 (updatePlacement id1 r1 s) = updatePlacement id1 r2 s.
Proof.
  unfold updatePlacement, withPlacements. cbn. f_equal. rewrite map_map.
  apply map_ext. intros p.
  destruct (String.eqb (id p) id1) eqn:Hp; cbn; now rewrite Hp.
Qed.

(** X6. How [updatePlacement] composes.  It never changes the number, the
    order, the ids, the pages or the payloads of the placements; a second
    update of the same id overrides the first; updates of different ids
    commute. *)
Theorem updatePlacement_composes id1 id2 r1 r2 (s : S) :
  map (fun p => (id p, pageIndex p, imageDataUrl p))
      (placements (updatePlacement id1 r1 s))
  = map (fun p => (id p, pageIndex p, imageDataUrl p)) (placements s)
  /\ updatePlacement id1 r2 (updatePlacement id1 r1 s)
     = updatePlacement id1 r2 s
  /\ (id1 <> id2 ->
      updatePlacement id1 r1 (updatePlacement id2 r2 s)
      = updatePlacement id2 r2 (updatePlacement id1 r1 s)).
Proof.
  split; [ | split].
  - unfold updatePlacement. cbn. rewrite map_map. apply map_ext. intros p.
    now destruct (String.eqb (id p) id1).
  - apply updatePlacement_twice.
  - intros Hne. unfold updatePlacement, withPlacements. cbn. f_equal.
    rewrite !map_map.
    apply map_ext. intros p.
    destruct (String.eqb (id p) id1) eqn:H1, (String.eqb (id p) id2) eqn:H2;
      cbn; rewrite ?H1, ?H2; try reflexivity.
    apply String.eqb_eq in H1, H2. congruence.
Qed.

Lemma updatePlacement_composes_witness :
  updatePlacement "u1" wideRect (updatePlacement "u2" badRect twoSigned)
  = updatePlacement "u2" badRect (updatePlacement "u1" wideRect twoSigned).
Proof.
  apply (updatePlacement_composes "u1" "u2" wideRect badRect twoSigned).
  discriminate.
Defined.

End StoreMore.

(* ===================================================================== *)
(** ** The validators, the name field, the file input, [exportAll]        *)
(* ===================================================================== *)

Module PanelAppProps.
Import JsNum JsNumFacts AppStore PdfExport Session Vocabulary StoreExport
       Samples MoreVocabulary MoreSamples StringFacts StoreProps StoreMore.
Local Open Scope string_scope.
Local Open Scope list_scope.

(** X7. The two data-URL tests.  Whatever the store's [isValidDataURL]
    accepts, the panel's accepts too; the panel's also accepts media types
    the store refuses, such as [image/gif], and then [setCurrentSignature]
    leaves the store as it was. *)
Theorem store_validator_within_panel :
  (forall u, AppStore.isValidDataURL u = true ->
             SignaturePanel.isValidDataURL u = true)
  /\ SignaturePanel.isValidDataURL gifUrl = true
  /\ AppStore.isValidDataURL gifUrl = false
  /\ (forall s, setCurrentSignature (Some gifUrl) s = s).
Proof.
  split; [ | repeat split].
  intros u. unfold AppStore.isValidDataURL, SignaturePanel.isValidDataURL.
  destruct (stripPrefix "data:image/" u) as [rest | ]; [ | discriminate].
  rewrite existsb_exists. intros (fmt & Hfmt & Hm).
  unfold matchesAfter in Hm.
  destruct (stripPrefix (fmt ++ ";base64,") rest) as [[ | c body] | ] eqn:Hb;
    try discriminate.
  apply stripPrefix_spec in Hb. subst rest.
  destruct Hfmt as [<- | [<- | [<- | [<- | []]]]]; exact Hm.
Qed.

Lemma store_validator_within_panel_witness :
  SignaturePanel.isValidDataURL pngDot = true.
Proof.
  apply (proj1 store_validator_within_panel pngDot). reflexivity.
Defined.

Lemma allChars_filterChars (P keep : ascii -> bool) (s : string) :
  allChars P s = true -> allChars P (SignaturePanel.filterChars keep s) = true.
Proof.
  induction s as [ | c s IH]; cbn; [reflexivity | ].
  intros [Hc Hs]%andb_true_iff. destruct (keep c); cbn; [ | auto].
  now rewrite Hc, IH.
Qed.

Lemma allChars_filterChars_keep (keep : ascii -> bool) (s : string) :
  allChars keep (SignaturePanel.filterChars keep s) = true.
Proof.
  induction s as [ | c s IH]; cbn; [reflexivity | ].
  destruct (keep c) eqn:Hc; cbn; [now rewrite Hc | assumption].
Qed.

Lemma filterChars_id (keep : ascii -> bool) (s : string) :
  allChars keep s = true -> SignaturePanel.filterChars keep s = s.
Proof.
  induction s as [ | c s IH]; cbn; [reflexivity | ].
  intros [Hc Hs]%andb_true_iff. now rewrite Hc, IH.
Qed.

Lemma allChars_removeNoCase (P : ascii -> bool) (word : string) (s : string) :
  forall skip, allChars P s = true ->
               allChars P (SignaturePanel.removeNoCase word skip s) = true.
Proof.
  induction s as [ | c s IH]; intros skip; cbn; [reflexivity | ].
  intros [Hc Hs]%andb_true_iff. destruct skip as [ | k]; [ | auto].
  destruct (SignaturePanel.startsWithNoCase word (String c s)); [auto | ].
  cbn. now rewrite Hc, IH.
Qed.

(** A match of [word] reads the characters of [word], up to case. *)
Lemma startsWithNoCase_chars (ch : ascii) (word : string) :
  forall s,
    SignaturePanel.startsWithNoCase word s = true ->
    allChars (fun c => negb (Ascii.eqb (lower c) ch)) s = true ->
    allChars (fun c => negb (Ascii.eqb c ch)) word = true.
Proof.
  induction word as [ | a w IH]; intros s; [reflexivity | ].
  destruct s as [ | c s]; [discriminate | ].
  unfold SignaturePanel.startsWithNoCase.
  cbn [String.length String.substring mapChars stripPrefix].
  destruct (Ascii.eqb_spec a (lower c)) as [-> | ]; [ | discriminate].
  intros Hm. cbn [allChars]. intros [Hc Hs]%andb_true_iff.
  rewrite Hc. cbn. apply (IH s); assumption.
Qed.

Lemma lower_colon (c : ascii) :
  negb (Ascii.eqb c ":"%char) = true ->
  negb (Ascii.eqb (lower c) ":"%char) = true.
Proof.
  destruct c as [[] [] [] [] [] [] [] []]; vm_compute; auto.
Qed.

Lemma startsWith_javascript_colon (s : string) :
  SignaturePanel.startsWithNoCase "javascript:" s = true ->
  allChars (fun c => negb (Ascii.eqb c ":"%char)) s = false.
Proof.
  intros Hm.
  destruct (allChars (fun c => negb (Ascii.eqb c ":"%char)) s) eqn:Hall;
    [ | reflexivity].
  apply (allChars_impl _ _ _ lower_colon) in Hall.
  pose proof (startsWithNoCase_chars ":"%char _ _ Hm Hall) as H.
  vm_compute in H. discriminate H.
Qed.

Lemma removeNoCase_id (s : string) :
  allChars (fun c => negb (Ascii.eqb c ":"%char)) s = true ->
  SignaturePanel.removeNoCase "javascript:" 0 s = s.
Proof.
  induction s as [ | c s IH]; [reflexivity | ]. intros Hall.
  cbn [SignaturePanel.removeNoCase].
  destruct (SignaturePanel.startsWithNoCase "javascript:" (String c s)) eqn:Hm.
  - apply startsWith_javascript_colon in Hm. congruence.
  - f_equal. apply IH. cbn in Hall. now apply andb_true_iff in Hall.
Qed.

Lemma plain_no_colon (c : ascii) :
  isPlainChar c = true -> negb (Ascii.eqb c ":"%char) = true.
Proof.
  destruct (Ascii.eqb_spec c ":"%char) as [-> | ]; [discriminate | reflexivity].
Qed.

Lemma handleTypedChange_plain (raw : string) :
  allChars isPlainChar (SignaturePanel.handleTypedChange raw) = true.
Proof.
  unfold SignaturePanel.handleTypedChange, isPlainChar.
  apply allChars_substring, allChars_and. split.
  - apply allChars_filterChars_keep.
  - apply allChars_filterChars, allChars_removeNoCase.
    apply allChars_filterChars_keep.
Qed.

(** X8. The filter of the name field.  Whatever is typed or pasted, the
    stored value has at most 50 characters, each of them a letter, a digit,
    an underscore, white space, a dot or a hyphen (no angle bracket, quote,
    apostrophe, ampersand, backtick or colon survives); and filtering a
    filtered value changes nothing. *)
Theorem handleTypedChange_safe (raw : string) :
  let v := SignaturePanel.handleTypedChange raw in
  (String.length v <= 50)%nat
  /\ everyChar (fun c => SignaturePanel.isWordChar c || isSpace c
                         || Ascii.eqb c "."%char || Ascii.eqb c "-"%char) v
  /\ SignaturePanel.handleTypedChange v = v.
Proof.
  cbn zeta. pose proof (handleTypedChange_plain raw) as Hplain.
  split; [apply length_substring_le | ]. split.
  - unfold everyChar. revert Hplain. apply allChars_impl. clear.
    intros c. unfold isPlainChar.
    destruct c as [[] [] [] [] [] [] [] []]; vm_compute; auto.
  - set (v := SignaturePanel.handleTypedChange raw) in *.
    assert (Hlen : (String.length v <= 50)%nat)
      by apply length_substring_le.
    apply allChars_and in Hplain as Hboth. destruct Hboth as [Hallow Hsafe].
    unfold SignaturePanel.handleTypedChange at 1.
    rewrite (filterChars_id _ v Hsafe).
    rewrite removeNoCase_id
      by (revert Hplain; apply allChars_impl, plain_no_colon).
    rewrite (filterChars_id _ v Hallow).
    now apply substring_short.
Qed.

(** X9. The file input.  [handlePdfUpload] changes the store only by a
    [loadFile] of the chosen file, and only when that file is declared
    [application/pdf], has at most 50 MiB, was read, and starts with the four
    bytes [%PDF]; then nothing is reported and the placements are empty.  In
    every other case the store is as before, and exactly one dialog is shown
    unless no file was chosen. *)
Theorem handlePdfUpload_gate (chosen : option (File * string))
    (readOk : bool) (s : S) :
  let (s', alerts) := App.handlePdfUpload chosen readOk s in
  (s' = s /\ chosen = None /\ alerts = [])
  \/ (s' = s /\ length alerts = 1%nat)
  \/ (exists f rest,
        chosen = Some (f, "application/pdf")
        /\ readOk = true
        /\ bytes f = Byte.x25 :: Byte.x50 :: Byte.x44 :: Byte.x46 :: rest
        /\ (Z.of_nat (length (bytes f)) <= 50 * 1024 * 1024)%Z
        /\ s' = loadFile f s /\ placements s' = [] /\ alerts = []).
Proof.
  unfold App.handlePdfUpload.
  destruct chosen as [[f type] | ]; [ | left; auto].
  destruct (Z.gtb_spec (Z.of_nat (length (bytes f))) App.MAX_PDF_SIZE)
    as [Hbig | Hsize]; [right; left; auto | ].
  destruct (String.eqb_spec type "application/pdf") as [-> | Htype];
    cbn [negb]; [ | right; left; auto].
  destruct readOk; cbn [negb]; [ | right; left; auto].
  destruct (App.hasPdfMagic (bytes f)) eqn:Hmagic; cbn [negb];
    [ | right; left; auto].
  right. right. unfold App.hasPdfMagic in Hmagic.
  destruct (bytes f) as [ | b0 [ | b1 [ | b2 [ | b3 rest]]]] eqn:Hb;
    try discriminate.
  apply andb_true_iff in Hmagic as [Hmagic H3].
  apply andb_true_iff in Hmagic as [Hmagic H2].
  apply andb_true_iff in Hmagic as [H0 H1].
  apply Byte.byte_dec_bl in H0, H1, H2, H3. subst b0 b1 b2 b3.
  exists f, rest. rewrite Hb. repeat split; try reflexivity.
  exact Hsize.
Qed.

(** X10. [exportAll] of the store, with either copy of [exportSignedPdf]
    behind its import.  Either it shows no dialog and hands the browser
    exactly one download, the signed bytes of the loaded file with the stored
    placements, of which there is at least one; or it shows exactly one
    dialog and the browser is left as it was.  The flag [hasDoc] plays no
    part. *)
Theorem exportAll_outcomes `{lib : PdfLib} (c : Copy) (s : S) (b : Browser) :
  let (alerts, b') := exportAllOf c s b in
  (alerts = []
   /\ exists file out,
        pdfFile s = Some file /\ placements s <> []
        /\ signedBytes (toPdfOf c) file (placements s) = Return out
        /\ b' = triggerDownload (name file) out b)
  \/ (length alerts = 1%nat /\ b' = b
      /\ (pdfFile s = None \/ placements s = []
          \/ exists file e,
               pdfFile s = Some file
               /\ signedBytes (toPdfOf c) file (placements s) = Throw e)).
Proof.
  unfold exportAllOf.
  destruct (pdfFile s) as [file | ]; [ | right; cbn; auto].
  destruct (placements s) as [ | p ps] eqn:Hps; [right; cbn; auto | ].
  assert (Hshape :
    exportSignedPdfOf c file (p :: ps) b
    = match signedBytes (toPdfOf c) file (p :: ps) with
      | Return out => (Return tt, triggerDownload (name file) out b)
      | Throw e => (Throw (match c with
                           | PercentCopy => ExportFailed
                           | CanvasCopy => e
                           end), b)
      end) by (destruct c; reflexivity).
  rewrite Hshape.
  destruct (signedBytes (toPdfOf c) file (p :: ps)) as [out | e] eqn:Hout.
  - left. split; [reflexivity | ]. exists file, out.
    split; [reflexivity | ]. split; [discriminate | ].
    split; [exact Hout | reflexivity].
  - right. split; [reflexivity | ]. split; [reflexivity | ].
    right. right. now exists file, e.
Qed.

End PanelAppProps.

(* ===================================================================== *)
(** ** Placing, showing, moving, resizing and deleting in the viewer      *)
(* ===================================================================== *)

Module ViewerMore.
Import JsNum JsNumFacts AppStore PdfViewer PdfViewerPlace PdfViewerResize
       PdfExport Session Vocabulary Samples MoreVocabulary MoreSamples
       StoreProps StoreMore.
Local Open Scope Q_scope.
Local Open Scope string_scope.
Local Open Scope list_scope.

(** *** Clamping *)

Lemma clamp_lower (lo hi v : number) : lo <= Math_max lo (Math_min v hi).
Proof. apply Q.le_max_l. Qed.

Lemma clamp_upper (lo hi v : number) :
  lo <= hi -> Math_max lo (Math_min v hi) <= hi.
Proof.
  intros H. apply Q.max_lub; [exact H | apply Q.le_min_r].
Qed.


(** The clamp of [handleResizeMove] and [pinchMove], bounds first. *)
Lemma clamp_lower' (lo hi v : number) : lo <= Math_max lo (Math_min hi v).
Proof. apply Q.le_max_l. Qed.

Lemma clamp_upper' (lo hi v : number) :
  lo <= hi -> Math_max lo (Math_min hi v) <= hi.
Proof.
  intros H. apply Q.max_lub; [exact H | apply Q.le_min_l].
Qed.

Lemma clamp_low_wins (lo hi v : number) :
  hi < lo -> Math_max lo (Math_min hi v) == lo.
Proof.
  intros H. apply Q.max_l. apply Qle_trans with hi; [apply Q.le_min_l | ].
  now apply Qlt_le_weak.
Qed.

(** *** Pixels as a percentage of a box side *)

Lemma percent_pos (a side : number) : 0 < side -> 0 < a -> 0 < a / side * 100.
Proof.
  intros Hs Ha. apply Qmult_lt_0_compat; [ | reflexivity].
  apply Qlt_shift_div_l; [exact Hs | ]. now rewrite Qmult_0_l.
Qed.

Lemma percent_le (a b side : number) :
  0 < side -> a <= b -> a / side * 100 <= b / side * 100.
Proof.
  intros Hs Hab. apply Qmult_le_compat_r; [ | discriminate].
  unfold Qdiv. apply Qmult_le_compat_r; [exact Hab | ].
  apply Qlt_le_weak, Qinv_lt_0_compat, Hs.
Qed.

Lemma percent_lt (a b side : number) :
  0 < side -> a < b -> a / side * 100 < b / side * 100.
Proof.
  intros Hs Hab. apply Qmult_lt_compat_r; [reflexivity | ].
  unfold Qdiv. apply Qmult_lt_compat_r; [ | exact Hab].
  apply Qinv_lt_0_compat, Hs.
Qed.


Lemma percent_full (side : number) : 0 < side -> side / side * 100 == 100.
Proof.
  intros Hs. field. intros H. rewrite H in Hs. discriminate Hs.
Qed.


(** The rect of a click on a box that can hold a signature. *)
Lemma placementRect_normalized (canvasRect : DOMRect) (cx cy : number) :
  shown canvasRect ->
  220 <= dom_width canvasRect -> 60 <= dom_height canvasRect ->
  normalizedRect (placementRect canvasRect cx cy).
Proof.
  intros [Hw Hh] Hw220 Hh60. unfold normalizedRect, placementRect. cbn.
  pose proof (percent_le _ _ _ Hw Hw220) as HW.
  pose proof (percent_le _ _ _ Hh Hh60) as HH.
  rewrite percent_full in HW, HH by assumption.
  pose proof (percent_pos 220 _ Hw eq_refl) as HW0.
  pose proof (percent_pos 60 _ Hh eq_refl) as HH0.
  set (pw := 220 / dom_width canvasRect * 100) in *.
  set (ph := 60 / dom_height canvasRect * 100) in *.
  pose proof (clamp_lower 0 (100 - pw)
                ((cx - dom_left canvasRect) / dom_width canvasRect * 100
                 - pw / 2)) as Hx0.
  pose proof (clamp_upper 0 (100 - pw)
                ((cx - dom_left canvasRect) / dom_width canvasRect * 100
                 - pw / 2)) as Hx1.
  pose proof (clamp_lower 0 (100 - ph)
                ((cy - dom_top canvasRect) / dom_height canvasRect * 100
                 - ph / 2)) as Hy0.
  pose proof (clamp_upper 0 (100 - ph)
                ((cy - dom_top canvasRect) / dom_height canvasRect * 100
                 - ph / 2)) as Hy1.
  repeat split; try assumption; lra.
Qed.

Lemma normalized_in_range (r : PercentRect) :
  normalizedRect r -> ~ fieldOutOfRange r.
Proof.
  unfold normalizedRect, fieldOutOfRange. intros H1 H2. lra.
Qed.

Lemma nat_index_wellformed (k : nat) :
  ~ malformedPageIndex (inject_Z (Z.of_nat k)).
Proof.
  intros [H | H].
  - revert H. unfold Qlt. cbn. lia.
  - apply H. now exists (Z.of_nat k).
Qed.

(** X11. A click or tap on a page shown at least 220 x 60 px large, with a
    valid signature chosen, adds exactly one placement: on that page, with
    that signature, and with a rect that lies on the page (normalized),
    wherever the click fell. *)
Theorem handlePlacement_places_on_page (sig : string) (k : nat)
    (canvasRect : DOMRect) (cx cy : number) (uuid : string) (s : S) :
  shown canvasRect ->
  220 <= dom_width canvasRect -> 60 <= dom_height canvasRect ->
  isValidDataURL sig = true ->
  placements (handlePlacement (Some sig) k canvasRect cx cy uuid s)
  = placements s
    ++ [{| id := uuid; pageIndex := inject_Z (Z.of_nat k);
           rect := placementRect canvasRect cx cy; imageDataUrl := sig |}]
  /\ normalizedRect (placementRect canvasRect cx cy).
Proof.
  intros Hshown Hw Hh Hsig.
  pose proof (placementRect_normalized canvasRect cx cy Hshown Hw Hh) as Hn.
  split; [ | exact Hn].
  destruct sig as [ | c u]; [discriminate Hsig | ]. cbn [handlePlacement].
  apply addPlacement_appends;
    [exact Hsig | apply nat_index_wellformed | now apply normalized_in_range].
Qed.

Lemma canvasBox_shown : shown canvasBox.
Proof. split; reflexivity. Qed.

Lemma handlePlacement_places_on_page_witness :
  placements (handlePlacement (Some pngDot) 0 canvasBox 900 20 "u1" onePage)
  = placements onePage
    ++ [{| id := "u1"; pageIndex := inject_Z (Z.of_nat 0);
           rect := placementRect canvasBox 900 20; imageDataUrl := pngDot |}]
  /\ normalizedRect (placementRect canvasBox 900 20).
Proof.
  apply (handlePlacement_places_on_page pngDot 0 canvasBox 900 20 "u1" onePage);
    [exact canvasBox_shown | discriminate | discriminate | reflexivity].
Defined.

(** X12. On a page shown narrower than 220 px or lower than 60 px no click
    places anything: the rect computed is wider or higher than the page, and
    [addPlacement] drops it without a word. *)
Theorem handlePlacement_small_canvas_silent (sig : option string) (k : nat)
    (canvasRect : DOMRect) (cx cy : number) (uuid : string) (s : S) :
  shown canvasRect ->
  dom_width canvasRect < 220 \/ dom_height canvasRect < 60 ->
  handlePlacement sig k canvasRect cx cy uuid s = s.
Proof.
  intros [Hw Hh] Hsmall. destruct sig as [[ | c u] | ]; try reflexivity.
  cbn [handlePlacement]. unfold addPlacement.
  destruct (isValidDataURL (String c u)); [ | reflexivity]. cbn [negb].
  destruct (invalidPageIndex _); [reflexivity | ].
  assert (Hbad : invalidRect (placementRect canvasRect cx cy) = true).
  { apply invalidRect_spec. unfold fieldOutOfRange, placementRect. cbn.
    destruct Hsmall as [H | H].
    - pose proof (percent_lt _ _ _ Hw H) as Hp.
      rewrite percent_full in Hp by assumption. tauto.
    - pose proof (percent_lt _ _ _ Hh H) as Hp.
      rewrite percent_full in Hp by assumption. tauto. }
  now rewrite Hbad.
Qed.

Lemma handlePlacement_small_canvas_silent_witness :
  handlePlacement (Some pngDot) 0
    {| dom_left := 0; dom_top := 0; dom_width := 200; dom_height := 259 |}
    100 100 "u1" onePage
  = onePage.
Proof.
  apply (handlePlacement_small_canvas_silent (Some pngDot) 0
           {| dom_left := 0; dom_top := 0; dom_width := 200;
              dom_height := 259 |} 100 100 "u1" onePage).
  - split; reflexivity.
  - left. reflexivity.
Defined.







(** *** Moving *)

Lemma handleMove_call (cr : DOMRect) (cx cy : number) (d : DragSession) :
  let '(d', calls) := handleMove cr cx cy d in
  startRect d' = startRect d /\ target d' = target d
  /\ isDragging d' = isDragging d
  /\ Forall (fun c => fst c = target d
                      /\ w (snd c) = w (startRect d)
                      /\ h (snd c) = h (startRect d)
                      /\ x (snd c)
                         = Math_max 0 (Math_min
                             (x (startRect d)
                              + (cx - startX d) / dom_width cr * 100)
                             (100 - w (startRect d)))
                      /\ y (snd c)
                         = Math_max 0 (Math_min
                             (y (startRect d)
                              + (cy - startY d) / dom_height cr * 100)
                             (100 - h (startRect d)))) calls.
Proof.
  unfold handleMove. destruct (negb (isDragging d)); [cbn; auto | ].
  destruct (negb (dragStarted d) && _); cbn; [auto | ].
  repeat split. constructor; [ | constructor]. cbn. auto.
Qed.

(** X15. A drag never takes a signature off the page, and never changes its
    size or its owner.  Every [updatePlacement] call of a gesture on a
    signature no larger than the page names the placement the gesture
    started on and carries a rect of the size the gesture started with, lying
    on the page. *)
Theorem drag_calls_stay_on_page (es : list DragEvent) (d : DragSession) :
  w (startRect d) <= 100 -> h (startRect d) <= 100 ->
  Forall onShownCanvas es ->
  Forall (fun c => fst c = target d /\ movedOnPage (startRect d) (snd c))
         (gesture es d).
Proof.
  intros Hw Hh. revert d Hw Hh.
  induction es as [ | e es IH]; intros d Hw Hh Hes; [constructor | ].
  inversion Hes as [ | ? ? He Hes']; subst. cbn [gesture].
  destruct e as [cr cx cy | ]; cbn [dispatch].
  - pose proof (handleMove_call cr cx cy d) as Hcall.
    destruct (handleMove cr cx cy d) as [d' calls].
    destruct Hcall as (Hr & Ht & _ & Hcalls).
    apply Forall_app. split.
    + eapply List.Forall_impl; [ | exact Hcalls].
      intros [i r] (Hi & Hw' & Hh' & Hx & Hy). cbn [fst snd] in *.
      split; [exact Hi | ]. unfold movedOnPage.
      rewrite Hw', Hh', Hx, Hy.
      pose proof (clamp_lower 0 (100 - w (startRect d))
                    (x (startRect d) + (cx - startX d) / dom_width cr * 100)).
      pose proof (clamp_upper 0 (100 - w (startRect d))
                    (x (startRect d) + (cx - startX d) / dom_width cr * 100)).
      pose proof (clamp_lower 0 (100 - h (startRect d))
                    (y (startRect d) + (cy - startY d) / dom_height cr * 100)).
      pose proof (clamp_upper 0 (100 - h (startRect d))
                    (y (startRect d) + (cy - startY d) / dom_height cr * 100)).
      repeat split; try assumption; lra.
    + rewrite <- Hr, <- Ht. apply IH; [now rewrite Hr | now rewrite Hr | ].
      exact Hes'.
  - cbn [app]. apply (IH (handleEnd d)); assumption.
Qed.

Lemma drag_calls_stay_on_page_witness :
  Forall (fun c => fst c = target pressed
                   /\ movedOnPage (startRect pressed) (snd c))
         (gesture [PointerMove canvasBox 950 220; PointerUp;
                   PointerMove canvasBox 0 0] pressed).
Proof.
  apply (drag_calls_stay_on_page
           [PointerMove canvasBox 950 220; PointerUp;
            PointerMove canvasBox 0 0] pressed).
  - discriminate.
  - discriminate.
  - repeat constructor.
Defined.

Lemma gesture_idle (es : list DragEvent) (d : DragSession) :
  isDragging d = false -> gesture es d = [].
Proof.
  revert d. induction es as [ | e es IH]; intros d Hd; [reflexivity | ].
  cbn [gesture]. destruct e as [cr cx cy | ]; cbn [dispatch].
  - unfold handleMove. rewrite Hd. cbn. now apply IH.
  - cbn. now apply IH.
Qed.

(** X16. Once the pointer is released, the gesture is over.  Whatever events
    follow a [mouseup] / [touchend], the session issues no further
    [updatePlacement] call. *)
Theorem no_update_after_release (es es' : list DragEvent) (d : DragSession) :
  gesture (es ++ PointerUp :: es') d = gesture es d.
Proof.
  revert d. induction es as [ | e es IH]; intros d.
  - cbn. now apply gesture_idle.
  - cbn [app gesture]. destruct (dispatch e d) as [d' calls].
    now rewrite IH.
Qed.

Lemma applyCalls_app (c1 c2 : list UpdateCall) (s : S) :
  applyCalls (c1 ++ c2) s = applyCalls c2 (applyCalls c1 s).
Proof. apply fold_left_app. Qed.

Lemma applyCalls_same_target (i : string) (calls : list UpdateCall) (s : S) :
  Forall (fun c => fst c = i) calls ->
  applyCalls calls s
  = match last calls with
    | Some c => updatePlacement i (snd c) s
    | None => s
    end.
Proof.
  induction calls as [ | c calls IH] using rev_ind; intros Hall;
    [reflexivity | ].
  apply Forall_app in Hall as [Hall Hc].
  rewrite applyCalls_app, last_snoc. cbn.
  pose proof (proj1 (Forall_singleton _ _) Hc) as Hi. cbn beta in Hi.
  rewrite Hi.
  rewrite (IH Hall). destruct (last calls) as [c' | ]; [ | reflexivity].
  apply updatePlacement_twice.
Qed.

Lemma gesture_targets (es : list DragEvent) (d : DragSession) :
  Forall (fun c => fst c = target d) (gesture es d).
Proof.
  revert d. induction es as [ | e es IH]; intros d; [constructor | ].
  cbn [gesture]. destruct e as [cr cx cy | ]; cbn [dispatch].
  - pose proof (handleMove_call cr cx cy d) as Hcall.
    destruct (handleMove cr cx cy d) as [d' calls].
    destruct Hcall as (_ & Ht & _ & Hcalls). apply Forall_app. split.
    + eapply List.Forall_impl; [ | exact Hcalls]. now intros c [Hi _].
    + rewrite <- Ht. apply IH.
  - cbn [app]. apply (IH (handleEnd d)).
Qed.

(** X17. A drag is absolute, not cumulative.  Replaying on the store all the
    [updatePlacement] calls of a gesture leaves it as the last call alone
    would: every call carries a rect computed from the rect at the start of
    the gesture, so the samples in between leave no trace. *)
Theorem drag_replay_is_last_call (es : list DragEvent) (d : DragSession)
    (s : S) :
  applyCalls (gesture es d) s
  = match last (gesture es d) with
    | Some c => updatePlacement (target d) (snd c) s
    | None => s
    end.
Proof.
  apply applyCalls_same_target, gesture_targets.
Qed.

(** *** Resizing *)

(** X18. Resizing by the handle.  While the session is open, each move makes
    one [updatePlacement] call on the placement it started on; the rect keeps
    its top-left corner and is at least 5 % wide and 3 % high.  It ends on
    the page horizontally exactly when the corner is at most 95 % from the
    left, and vertically exactly when it is at most 97 % from the top: beyond
    that the minimum size wins over the page bound.  After the release no
    call is made. *)
Theorem resize_keeps_corner (canvasRect : DOMRect) (mx my : number)
    (r : ResizeSession) :
  isResizing r = true -> shown canvasRect ->
  handleResizeMove canvasRect mx my (handleResizeEnd r) = []
  /\ exists r',
       handleResizeMove canvasRect mx my r = [(resizeTarget r, r')]
       /\ x r' = x (resizeStartRect r) /\ y r' = y (resizeStartRect r)
       /\ 5 <= w r' /\ 3 <= h r'
       /\ (x r' + w r' <= 100 <-> x (resizeStartRect r) <= 95)
       /\ (y r' + h r' <= 100 <-> y (resizeStartRect r) <= 97).
Proof.
  intros Hres _. split; [reflexivity | ].
  unfold handleResizeMove. rewrite Hres. cbn [negb].
  eexists. split; [reflexivity | ]. cbn [x y w h].
  set (x0 := x (resizeStartRect r)). set (y0 := y (resizeStartRect r)).
  set (vw := w (resizeStartRect r) + _). set (vh := h (resizeStartRect r) + _).
  pose proof (clamp_lower' 5 (100 - x0) vw) as Hw5.
  pose proof (clamp_lower' 3 (100 - y0) vh) as Hh3.
  pose proof (clamp_upper' 5 (100 - x0) vw) as Hw1.
  pose proof (clamp_upper' 3 (100 - y0) vh) as Hh1.
  repeat split; try assumption; try reflexivity.
  - intros H. lra.
  - intros H. lra.
  - intros H. lra.
  - intros H. lra.
Qed.

Lemma resize_keeps_corner_witness :
  handleResizeMove canvasBox 400 300
    (handleResizeEnd (startResize signature1 320 260)) = []
  /\ exists r',
       handleResizeMove canvasBox 400 300 (startResize signature1 320 260)
       = [(resizeTarget (startResize signature1 320 260), r')]
       /\ x r' = x (resizeStartRect (startResize signature1 320 260))
       /\ y r' = y (resizeStartRect (startResize signature1 320 260))
       /\ 5 <= w r' /\ 3 <= h r'
       /\ (x r' + w r' <= 100
           <-> x (resizeStartRect (startResize signature1 320 260)) <= 95)
       /\ (y r' + h r' <= 100
           <-> y (resizeStartRect (startResize signature1 320 260)) <= 97).
Proof.
  apply (resize_keeps_corner canvasBox 400 300
           (startResize signature1 320 260));
    [reflexivity | exact canvasBox_shown].
Defined.

(** X19. Resizing by a pinch.  The call names the pinched placement; the rect
    keeps the top-left corner the pinch started with, is between 5 % and
    50 % wide and between 3 % and 30 % high, whatever the fingers do, and
    stays on the page when that corner is at most 95 % from the left and
    97 % from the top. *)
Theorem pinch_stays_in_bounds (p : Placement) (initialRect : PercentRect)
    (initialDistance currentDistance : number) :
  0 < initialDistance -> 0 <= currentDistance ->
  let call := pinchMove p initialRect initialDistance currentDistance in
  fst call = id p
  /\ x (snd call) = x initialRect /\ y (snd call) = y initialRect
  /\ 5 <= w (snd call) <= 50 /\ 3 <= h (snd call) <= 30
  /\ (x initialRect <= 95 -> x (snd call) + w (snd call) <= 100)
  /\ (y initialRect <= 97 -> y (snd call) + h (snd call) <= 100).
Proof.
  intros _ _. cbn zeta. unfold pinchMove. cbn [fst snd x y w h].
  set (x0 := x initialRect). set (y0 := y initialRect).
  set (vw := w initialRect * _). set (vh := h initialRect * _).
  pose proof (clamp_lower' 5 (Math_min 50 (100 - x0)) vw) as Hw5.
  pose proof (clamp_lower' 3 (Math_min 30 (100 - y0)) vh) as Hh3.
  pose proof (clamp_upper' 5 (Math_min 50 (100 - x0)) vw) as Hw1.
  pose proof (clamp_upper' 3 (Math_min 30 (100 - y0)) vh) as Hh1.
  pose proof (Q.le_min_l 50 (100 - x0)) as Hmw.
  pose proof (Q.le_min_r 50 (100 - x0)) as Hmw'.
  pose proof (Q.le_min_l 30 (100 - y0)) as Hmh.
  pose proof (Q.le_min_r 30 (100 - y0)) as Hmh'.
  assert (Hw50 : Math_max 5 (Math_min (Math_min 50 (100 - x0)) vw) <= 50).
  { apply Q.max_lub; [discriminate | ].
    eapply Qle_trans; [apply Q.le_min_l | exact Hmw]. }
  assert (Hh30 : Math_max 3 (Math_min (Math_min 30 (100 - y0)) vh) <= 30).
  { apply Q.max_lub; [discriminate | ].
    eapply Qle_trans; [apply Q.le_min_l | exact Hmh]. }
  repeat split; try assumption; try reflexivity.
  - intros Hx. assert (H5 : 5 <= Math_min 50 (100 - x0))
      by (apply Q.min_glb; lra).
    specialize (Hw1 H5). unfold Math_min in *. lra.
  - intros Hy. assert (H3 : 3 <= Math_min 30 (100 - y0))
      by (apply Q.min_glb; lra).
    specialize (Hh1 H3). unfold Math_min in *. lra.
Qed.

Lemma pinch_stays_in_bounds_witness :
  let call := pinchMove signature1 (rect signature1) 100 400 in
  fst call = id signature1
  /\ x (snd call) = x (rect signature1) /\ y (snd call) = y (rect signature1)
  /\ 5 <= w (snd call) <= 50 /\ 3 <= h (snd call) <= 30
  /\ (x (rect signature1) <= 95 -> x (snd call) + w (snd call) <= 100)
  /\ (y (rect signature1) <= 97 -> y (snd call) + h (snd call) <= 100).
Proof.
  apply (pinch_stays_in_bounds signature1 (rect signature1) 100 400);
    [reflexivity | discriminate].
Defined.

(** *** Deleting *)

Lemma removePlacement_In (i : string) (s : S) (q : Placement) :
  In q (placements (removePlacement i s))
  <-> In q (placements s) /\ id q <> i.
Proof.
  unfold removePlacement. cbn. rewrite List.filter_In, negb_true_iff.
  rewrite <- not_true_iff_false, String.eqb_eq. tauto.
Qed.

(** X20. Deleting needs the user's consent.  Neither the Delete / Backspace
    key nor the context menu or long press removes anything when the user
    declines the dialog; other keys do nothing; and a key press never adds a
    placement and removes none but the selected one. *)
Theorem delete_needs_confirmation (key : string) (selected : option string)
    (answer : bool) (p : Placement) (s : S) :
  handleKeyDown key selected false s = s
  /\ confirmDelete p false s = s
  /\ (key <> "Delete" -> key <> "Backspace" ->
      handleKeyDown key selected answer s = s)
  /\ (forall q, In q (placements (handleKeyDown key selected answer s)) ->
                In q (placements s))
  /\ (forall q, In q (placements s) ->
                ~ In q (placements (handleKeyDown key selected answer s)) ->
                selected = Some (id q) /\ answer = true).
Proof.
  split; [ | split; [ | split; [ | split]]].
  - unfold handleKeyDown. destruct (_ || _); [ | reflexivity].
    now destruct selected as [[ | c i] | ].
  - reflexivity.
  - intros H1 H2. unfold handleKeyDown.
    apply String.eqb_neq in H1, H2. now rewrite H1, H2.
  - intros q. unfold handleKeyDown. destruct (_ || _); [ | auto].
    destruct selected as [[ | c i] | ]; auto.
    destruct answer; auto. now intros [H _]%removePlacement_In.
  - intros q Hq. unfold handleKeyDown. destruct (_ || _); [ | tauto].
    destruct selected as [[ | c i] | ]; try tauto.
    destruct answer; [ | tauto]. rewrite removePlacement_In.
    intros Hgone. split; [ | reflexivity]. f_equal.
    destruct (String.eqb_spec (id q) (String c i)) as [E | E]; [now symmetry | ].
    tauto.
Qed.

Lemma delete_needs_confirmation_witness :
  handleKeyDown "x" (Some "u1") true oneSigned = oneSigned.
Proof.
  apply (delete_needs_confirmation "x" (Some "u1") true signature1 oneSigned);
    discriminate.
Defined.

(** *** Tap-to-place *)

Lemma taps_after_move (es : list TouchEvent) (t : TapState) :
  hasMoved t = true -> Forall noSingleStart es -> taps es t = [].
Proof.
  revert t. induction es as [ | e es IH]; intros t Hm Hes; [reflexivity | ].
  inversion Hes as [ | ? ? He Hes']; subst. cbn [taps].
  destruct e as [n cx cy now | n cx cy | n cx cy now]; cbn [tapDispatch].
  - cbn in He. apply Nat.eqb_neq in He. rewrite He. now apply IH.
  - destruct (Nat.eqb n 1); [ | now apply IH].
    destruct (_ || _); now apply IH.
  - rewrite Hm, andb_false_r. now apply IH.
Qed.

(** X21. A swipe is not a tap, and a tap needs a quick, still touch.  Once a
    single finger on a page has moved more than 10 px from where it went
    down, horizontally or vertically, nothing is placed until a finger goes
    down anew, however the touch ends.  A finger that goes down and is
    lifted without a move in between places a signature, at the point where
    it was lifted, exactly when it stayed between 50 and 300 ms and within
    5 px on both axes. *)
Theorem tap_gate (t : TapState) :
  (forall es cx cy,
      Forall noSingleStart es ->
      10 < Qabs (cx - touchStartX t) \/ 10 < Qabs (cy - touchStartY t) ->
      taps (TouchMove 1 cx cy :: es) t = [])
  /\ (forall sx sy t0 n cx cy t1,
        taps [TouchStart 1 sx sy t0; TouchEnd n cx cy t1] t
        = if Nat.ltb 0 n && ltb (t1 - t0) 300 && gtb (t1 - t0) 50
             && ltb (Qabs (cx - sx)) 5 && ltb (Qabs (cy - sy)) 5
          then [(cx, cy)] else []).
Proof.
  split.
  - intros es cx cy Hes Hfar. cbn [taps tapDispatch Nat.eqb].
    assert (Hm : gtb (Math_abs (cx - touchStartX t)) 10
                 || gtb (Math_abs (cy - touchStartY t)) 10 = true).
    { apply orb_true_iff. rewrite !gtb_gt. exact Hfar. }
    rewrite Hm. now apply taps_after_move.
  - intros sx sy t0 n cx cy t1.
    cbn [taps tapDispatch Nat.eqb touchStartX touchStartY touchStartTime
         hasMoved negb].
    unfold Math_abs. rewrite andb_true_r.
    destruct (Nat.ltb 0 n); cbn [andb]; [ | reflexivity].
    now destruct (ltb (t1 - t0) 300 && gtb (t1 - t0) 50
                  && ltb (Qabs (cx - sx)) 5 && ltb (Qabs (cy - sy)) 5).
Qed.

Lemma tap_gate_witness :
  taps [TouchMove 1 40 10; TouchEnd 1 40 10 120; TouchEnd 1 0 0 200]
       tapInitial = [].
Proof.
  apply (tap_gate tapInitial).
  - repeat constructor.
  - left. reflexivity.
Defined.

End ViewerMore.

(* ===================================================================== *)
(** ** The download name, the two conversions, when the export succeeds   *)
(* ===================================================================== *)

Module ExportMore.
Import JsNum JsNumFacts AppStore PdfViewer PdfExport Vocabulary Samples
       MoreVocabulary MoreSamples StringFacts ExportProps ExportClaims.
Local Open Scope Q_scope.
Local Open Scope string_scope.
Local Open Scope list_scope.



(** X23. The extension is dropped before the name is cleaned.  A file name
    ending in [.pdf], in whatever case, downloads under the name of its stem
    (or of [document], if there is no stem), cleaned, with [-signed.pdf]
    appended. *)
Theorem downloadName_drops_extension (stem ext : string) :
  mapChars lower ext = ".pdf" ->
  stripPdfSuffix (stem ++ ext)%string = stem
  /\ downloadName (stem ++ ext)%string
     = (sanitizeFilename (orElse stem "document") ++ "-signed.pdf")%string.
Proof.
  intros Hext.
  assert (Hstrip : stripPdfSuffix (stem ++ ext)%string = stem).
  { destruct ext as [ | a [ | b [ | c [ | d [ | ? ?]]]]]; try discriminate.
    injection Hext as Ha Hb Hc Hd.
    unfold stripPdfSuffix, reverse.
    rewrite list_ascii_of_string_app, rev_app_distr. cbn [list_ascii_of_string].
    cbn [rev app string_of_list_ascii mapChars stripPrefix].
    rewrite Ha, Hb, Hc, Hd. cbn [Ascii.eqb Bool.eqb].
    rewrite length_append. cbn [String.length].
    replace (String.length stem + 4 - 4)%nat with (String.length stem) by lia.
    apply substring_append. }
  split; [exact Hstrip | ]. unfold downloadName. now rewrite Hstrip.
Qed.

Lemma downloadName_drops_extension_witness :
  stripPdfSuffix ("contract v2" ++ ".PdF")%string = "contract v2"
  /\ downloadName ("contract v2" ++ ".PdF")%string
     = (sanitizeFilename (orElse "contract v2" "document")
        ++ "-signed.pdf")%string.
Proof.
  apply (downloadName_drops_extension "contract v2" ".PdF"). reflexivity.
Defined.




Section WithPdfLib.
Context {lib : PdfLib}.

Lemma exportSignedPdfOf_shape (c : Copy) file (ps : list Placement) b :
  exportSignedPdfOf c file ps b
  = match signedBytes (toPdfOf c) file ps with
    | Return out => (Return tt, triggerDownload (name file) out b)
    | Throw e => (Throw (match c with
                         | PercentCopy => ExportFailed
                         | CanvasCopy => e
                         end), b)
    end.
Proof. destruct c; reflexivity. Qed.

(** X26. When the export goes through.  If the source parses, every
    placement addresses one of its pages, every payload decodes as PNG or
    as JPEG, and [save] returns for the documents made from this source,
    then the export (either copy) returns and starts one download. *)
Theorem export_succeeds_when (c : Copy) file (ps : list Placement) b sizes :
  parsePages (bytes file) = Some sizes ->
  (forall p, In p ps ->
     exists k, arrayIndex (pageIndex p) = Some k /\ (k < length sizes)%nat) ->
  (forall p, In p ps ->
     decodesAsPng (imageDataUrl p) = true
     \/ decodesAsJpg (imageDataUrl p) = true) ->
  (forall doc, doc_source doc = bytes file -> is_Some (serialize doc)) ->
  exists out,
    exportSignedPdfOf c file ps b
    = (Return tt,
       {| downloads := downloads b
                       ++ [{| download_name := downloadName (name file);
                              download_body := out |}];
          objectUrls := Nat.succ (objectUrls b) |}).
Proof.
  intros Hparse Hpages Himgs Hsave.
  destruct (signedBytes_succeeds (toPdfOf c) file ps sizes
              Hparse Hpages Himgs Hsave) as [out Hout].
  exists out. now rewrite exportSignedPdfOf_shape, Hout.
Qed.

(** X27. The ids play no part in the export.  Two placement lists that agree
    on page index, rect and payload, position by position, export alike
    (either copy): same outcome, same download. *)
Theorem export_ignores_ids (c : Copy) file (ps qs : list Placement) b :
  map sansId ps = map sansId qs ->
  exportSignedPdfOf c file ps b = exportSignedPdfOf c file qs b.
Proof.
  intros Hsame.
  now rewrite !exportSignedPdfOf_shape,
    (signedBytes_ignores_ids (toPdfOf c) file ps qs Hsame).
Qed.

End WithPdfLib.

Lemma export_succeeds_when_witness :
  exists out,
    @exportSignedPdfOf plainLib CanvasCopy contract
      [initials1; initials2; initials1; initials2] idle
    = (Return tt,
       {| downloads := downloads idle
                       ++ [{| download_name := downloadName (name contract);
                              download_body := out |}];
          objectUrls := Nat.succ (objectUrls idle) |}).
Proof.
  apply (@export_succeeds_when plainLib CanvasCopy contract
           [initials1; initials2; initials1; initials2] idle [letter; letter]).
  - reflexivity.
  - intros p [<- | [<- | [<- | [<- | []]]]];
      [exists 0%nat | exists 1%nat | exists 0%nat | exists 1%nat];
      (split; [reflexivity | cbn; lia]).
  - intros p [<- | [<- | [<- | [<- | []]]]]; left; reflexivity.
  - intros doc _. now eexists.
Defined.

Lemma export_ignores_ids_witness :
  @exportSignedPdfOf demoLib PercentCopy contract
    [initials1; initials2] idle
  = @exportSignedPdfOf demoLib PercentCopy contract
      [{| id := "another"; pageIndex := 0; rect := exampleRect;
          imageDataUrl := pngDot |}; initials2] idle.
Proof.
  apply (@export_ignores_ids demoLib PercentCopy contract
           [initials1; initials2]
           [{| id := "another"; pageIndex := 0; rect := exampleRect;
               imageDataUrl := pngDot |}; initials2] idle).
  reflexivity.
Defined.

End ExportMore.
